(** * boa-statement-parser: the Plaid gateway and the file-backed item store

    A shallow embedding of [src/plaid/link.ts] (the request/response
    gateway) and of the [FilePlaidItemStore] class (the JSON-file-backed
    store of linked items), and the properties the specification states
    of them.

    The TypeScript is modelled at the level of its types: a [PlaidItem]
    is a record, [Partial<PlaidItem>] a record of optional fields, a
    rejected promise or a thrown exception an [Err] result, and the
    mutable world the code runs in (disk, clock, console) an explicit
    state that every method threads. The one place where the types are
    not checked at run time, the cast in [load], is modelled a second
    time without them, in [Raw]. *)

From Stdlib Require Import NArith Ascii Permutation.
From stdpp Require Import base option strings gmap list.
From stdpp Require Import pretty.

Open Scope string_scope.
Open Scope list_scope.

(** ** Results and the state-and-exception monad *)

(** What a JavaScript [throw] carries, as far as this code looks at it:
    the [message] of an [Error] instance. A system error, as Node's [fs]
    and the network raise them, has a [code] beside its message. *)
Inductive Error :=
  | SyntaxError (message : string)
  | TypeError (message : string)
  | SystemError (code message : string).

(** [err.message] *)
Definition err_message (e : Error) : string :=
  match e with
  | SyntaxError m => m
  | TypeError m => m
  | SystemError _ m => m
  end.

(** The error of a failed [fs] call. Node words its message
    [CODE: description, syscall 'path']. *)
Definition fs_error (code description syscall path : string) : Error :=
  SystemError code
    (code +:+ ": " +:+ description +:+ ", " +:+ syscall +:+ " '" +:+ path +:+ "'").

Inductive Result (A : Type) :=
  | Ok (a : A)
  | Err (e : Error).
Arguments Ok {A} a.
Arguments Err {A} e.

#[global] Instance Result_ret : MRet Result := @Ok.
#[global] Instance Result_bind : MBind Result := fun A B f r =>
  match r with
  | Ok a => f a
  | Err e => Err e
  end.

#[global] Instance Result_fmap : FMap Result := fun A B f r =>
  match r with
  | Ok a => Ok (f a)
  | Err e => Err e
  end.

(** A computation over a mutable state [S] that may throw. The state
    reached when the exception is raised is kept, as a [catch] clause
    sees every write that happened before the [throw]. *)
Definition M (S A : Type) : Type := S -> Result A * S.

#[global] Instance M_ret {S} : MRet (M S) := fun A a s => (Ok a, s).
#[global] Instance M_bind {S} : MBind (M S) := fun A B f m s =>
  match m s with
  | (Ok a, s') => f a s'
  | (Err e, s') => (Err e, s')
  end.

Definition throw {S A} (e : Error) : M S A := fun s => (Err e, s).
Definition gets {S A} (f : S -> A) : M S A := fun s => (Ok (f s), s).
Definition modify {S} (f : S -> S) : M S unit := fun s => (Ok tt, f s).

(** [try { body } catch (err) { handler }] *)
Definition try_catch {S A} (body : M S A) (handler : Error -> M S A) : M S A :=
  fun s =>
    match body s with
    | (Ok a, s') => (Ok a, s')
    | (Err e, s') => handler e s'
    end.

(** ** [Map]: keyed collection in insertion order *)

(** An ECMAScript [Map] iterates in insertion order; [set] on a key that
    is present replaces the value where it stands, [set] on a new key
    appends, [delete] removes the key. A [Map] holds a key once; the
    functions below keep that, and [delete] drops the key wherever a list
    has it. *)
Definition JsMap (V : Type) : Type := list (string * V).

Fixpoint Map_get {V} (k : string) (m : JsMap V) : option V :=
  match m with
  | [] => None
  | (k', v) :: m' => if String.eqb k' k then Some v else Map_get k m'
  end.

Fixpoint Map_set {V} (k : string) (v : V) (m : JsMap V) : JsMap V :=
  match m with
  | [] => [(k, v)]
  | (k', v') :: m' =>
      if String.eqb k' k then (k', v) :: m' else (k', v') :: Map_set k v m'
  end.

Fixpoint Map_delete {V} (k : string) (m : JsMap V) : JsMap V :=
  match m with
  | [] => []
  | (k', v') :: m' =>
      if String.eqb k' k then Map_delete k m' else (k', v') :: Map_delete k m'
  end.

Definition Map_values {V} (m : JsMap V) : list V := m.*2.

Definition Map_keys {V} (m : JsMap V) : list string := m.*1.

(** [new Map(entries)] *)
Definition new_Map {V} (entries : list (string * V)) : JsMap V :=
  fold_left (fun m kv => Map_set kv.1 kv.2 m) entries [].

(** ** Objects: own properties in [OrdinaryOwnPropertyKeys] order *)

(** An object's own string keys are enumerated array indices first, in
    ascending numeric order, then the other keys in order of creation.
    An array index is the canonical decimal spelling of an integer in
    [0, 2^32 - 2]. *)
Definition digit_of (a : Ascii.ascii) : option N :=
  let n := Ascii.N_of_ascii a in
  if ((48 <=? n) && (n <=? 57))%N then Some (n - 48)%N else None.

Fixpoint parse_digits (s : string) (acc : N) : option N :=
  match s with
  | EmptyString => Some acc
  | String a s' =>
      match digit_of a with
      | Some d => parse_digits s' (10 * acc + d)%N
      | None => None
      end
  end.

Definition array_index (s : string) : option N :=
  match s with
  | EmptyString => None
  | String "0"%char EmptyString => Some 0%N
  | String "0"%char _ => None
  | _ =>
      match parse_digits s 0 with
      | Some n => if (n <=? 4294967294)%N then Some n else None
      | None => None
      end
  end.

Definition JsObject (V : Type) : Type := list (string * V).

(** Where a new array-index key [n] goes: before the first property that
    is not an array index or has a larger index. *)
Fixpoint insert_index {V} (n : N) (k : string) (v : V) (o : JsObject V) : JsObject V :=
  match o with
  | [] => [(k, v)]
  | (k', v') :: o' =>
      match array_index k' with
      | Some n' =>
          if (n' <? n)%N then (k', v') :: insert_index n k v o'
          else (k, v) :: (k', v') :: o'
      | None => (k, v) :: (k', v') :: o'
      end
  end.

(** [CreateDataProperty(o, k, v)] *)
Definition define_property {V} (k : string) (v : V) (o : JsObject V) : JsObject V :=
  match Map_get k o with
  | Some _ => Map_set k v o
  | None =>
      match array_index k with
      | Some n => insert_index n k v o
      | None => o ++ [(k, v)]
      end
  end.

(** [Object.fromEntries(iterable)] *)
Definition Object_fromEntries {V} (entries : list (string * V)) : JsObject V :=
  fold_left (fun o kv => define_property kv.1 kv.2 o) entries [].

(** ** The item record ([types.ts]) *)

(** Modelled from the spec: [PlaidItem] and [PlaidItemStatus] are declared
    in [types.ts], which is not among the sources. The fields are those of
    the spec's data model, which are also the ones the command line passes
    to [saveItem] and reads back; the two a fresh item lacks ([syncCursor],
    [lastSyncAt]) are optional. A status is the string it is at run time.
    Timestamps are the strings [Date.prototype.toISOString] returns. *)
Definition PlaidItemStatus : Type := string.

Record PlaidItem := {
  itemId : string;
  accessToken : string;
  institutionId : string;
  institutionName : string;
  userId : string;
  status : PlaidItemStatus;
  syncCursor : option string;
  lastSyncAt : option string;
  createdAt : string;
  updatedAt : string;
}.

(** [Partial<PlaidItem>]: [None] is a property the object literal does not
    have. For the two optional fields a property may be present and hold
    [undefined], which the spread copies like any other value. *)
Record Partial_PlaidItem := {
  p_itemId : option string;
  p_accessToken : option string;
  p_institutionId : option string;
  p_institutionName : option string;
  p_userId : option string;
  p_status : option PlaidItemStatus;
  p_syncCursor : option (option string);
  p_lastSyncAt : option (option string);
  p_createdAt : option string;
  p_updatedAt : option string;
}.

(** [{ ...existing, ...updates, updatedAt: now }]: a later property wins. *)
Definition spread_updates (existing : PlaidItem) (updates : Partial_PlaidItem)
    (now : string) : PlaidItem :=
  {| itemId := default (itemId existing) (p_itemId updates);
     accessToken := default (accessToken existing) (p_accessToken updates);
     institutionId := default (institutionId existing) (p_institutionId updates);
     institutionName := default (institutionName existing) (p_institutionName updates);
     userId := default (userId existing) (p_userId updates);
     status := default (status existing) (p_status updates);
     syncCursor := default (syncCursor existing) (p_syncCursor updates);
     lastSyncAt := default (lastSyncAt existing) (p_lastSyncAt updates);
     createdAt := default (createdAt existing) (p_createdAt updates);
     updatedAt := now |}.

(** ** The host: [JSON], [path], [os] *)

(** What [JSON.parse] returns, seen through the cast
    [as Record<string, PlaidItem>] that [load] applies to it. The cast is
    not checked at run time. The store of this section takes it at its
    word, as the methods' types do: a text that parses is either [null] or
    an object of items. What [load] does with any other JSON value, an
    array, a string, an object of other things, is the subject of [Raw]
    below, where nothing is assumed of the file. *)
Inductive JsonDoc :=
  | JsonNull
  | JsonRecord (o : JsObject PlaidItem).

(** The functions of the runtime the store calls and does not define.
    [JSON_stringify data] stands for [JSON.stringify(data, null, 2)]. *)
Class Host := {
  JSON_stringify : JsObject PlaidItem -> string;
  JSON_parse : string -> Result JsonDoc;
  dirname : string -> string;
  join : list string -> string;
  homedir : string;
}.

(** The two facts about [JSON] the store relies on: the text that
    [JSON.stringify] writes for an object is read back by [JSON.parse] as
    that object, own keys in the same order, and the empty text is not
    JSON. Objects are the values [Object.fromEntries] builds. *)
Class HostLaws (host : Host) : Prop := {
  JSON_parse_stringify :
    forall entries : list (string * PlaidItem),
      JSON_parse (JSON_stringify (Object_fromEntries entries))
      = Ok (JsonRecord (Object_fromEntries entries));
  JSON_parse_empty :
    exists e, JSON_parse EmptyString = Err e;
}.

(** [Object.entries(value)]: throws a [TypeError] on [null]. *)
Definition Object_entries (value : JsonDoc) : Result (list (string * PlaidItem)) :=
  match value with
  | JsonNull => Err (TypeError "Cannot convert undefined or null to object")
  | JsonRecord o => Ok o
  end.

(** ** The world: disk, clock, console *)

Inductive Node :=
  | File (data : string)
  | Dir.

Record Disk := {
  nodes : gmap string Node;
  readonly : bool;
}.

(** [clock n] is what the [n]-th reading of the system clock returns, as
    [new Date().toISOString()] formats it; [ticks] counts the readings
    taken so far. *)
Record World := {
  disk : Disk;
  clock : nat -> string;
  ticks : nat;
  console : list string;
}.

Definition set_nodes (f : gmap string Node -> gmap string Node) (w : World) : World :=
  {| disk := {| nodes := f (nodes (disk w)); readonly := readonly (disk w) |};
     clock := clock w; ticks := ticks w; console := console w |}.

Definition tick (w : World) : World :=
  {| disk := disk w; clock := clock w; ticks := S (ticks w); console := console w |}.

Definition log (line : string) (w : World) : World :=
  {| disk := disk w; clock := clock w; ticks := ticks w;
     console := console w ++ [line] |}.

(** [new Date().toISOString()] *)
Definition Date_toISOString : M World string :=
  now ← gets (fun w => clock w (ticks w));
  _ ← modify tick;
  mret now.

(** [console.error(line)] *)
Definition console_error (line : string) : M World unit :=
  modify (log line).

(** [fs.existsSync(path)] *)
Definition existsSync (path : string) : M World bool :=
  gets (fun w => bool_decide (is_Some (nodes (disk w) !! path))).

(** [fs.readFileSync(path, 'utf-8')] *)
Definition readFileSync (path : string) : M World string :=
  d ← gets disk;
  match nodes d !! path with
  | Some (File data) => mret data
  | Some Dir =>
      throw (SystemError "EISDIR" "EISDIR: illegal operation on a directory, read")
  | None => throw (fs_error "ENOENT" "no such file or directory" "open" path)
  end.

Definition is_file (n : gmap string Node) (path : string) : bool :=
  match n !! path with
  | Some (File _) => true
  | _ => false
  end.

(** The directories [dirs] made where there is nothing yet. *)
Definition make_dirs (dirs : list string) (n : gmap string Node) : gmap string Node :=
  foldr (fun dir n' => <[dir:=Dir]> n') n dirs.

Section WithHost.
Context {host : Host}.

(** A directory and the directories above it, up to the one that is its
    own parent (the root, or [.] for a relative path). *)
Fixpoint lineage_within (fuel : nat) (dir : string) : list string :=
  dir ::
  match fuel with
  | 0 => []
  | S fuel' =>
      let parent := dirname dir in
      if String.eqb parent dir then [] else lineage_within fuel' parent
  end.

Definition lineage (dir : string) : list string :=
  lineage_within (String.length dir) dir.

(** [fs.mkdirSync(path, { recursive: true })]: makes the directory and
    those above it that are missing. A directory that is already there is
    accepted; a regular file in the way is not. *)
Definition mkdirSync (path : string) : M World unit :=
  d ← gets disk;
  match nodes d !! path with
  | Some (File _) => throw (fs_error "EEXIST" "file already exists" "mkdir" path)
  | Some Dir => mret tt
  | None =>
      if existsb (is_file (nodes d)) (lineage path) then
        throw (fs_error "ENOTDIR" "not a directory" "mkdir" path)
      else if readonly d then
        throw (fs_error "EROFS" "read-only file system" "mkdir" path)
      else modify (set_nodes (make_dirs (lineage path)))
  end.

(** [fs.writeFileSync(path, data, 'utf-8')]: replaces the file's content.
    The directory of the file has to be there, with no regular file on the
    way to it; the file is created if it is missing. *)
Definition writeFileSync (path data : string) : M World unit :=
  d ← gets disk;
  if existsb (is_file (nodes d)) (lineage (dirname path)) then
    throw (fs_error "ENOTDIR" "not a directory" "open" path)
  else
    match nodes d !! dirname path with
    | None => throw (fs_error "ENOENT" "no such file or directory" "open" path)
    | Some (File _) => throw (fs_error "ENOTDIR" "not a directory" "open" path)
    | Some Dir =>
        match nodes d !! path with
        | Some Dir =>
            throw (fs_error "EISDIR" "illegal operation on a directory" "open" path)
        | _ =>
            if readonly d then
              throw (fs_error "EROFS" "read-only file system" "open" path)
            else modify (set_nodes (insert path (File data)))
        end
    end.

(** ** [FilePlaidItemStore] *)

Definition DEFAULT_STORE_PATH : string :=
  join [homedir; ".boa-parser"; "plaid-items.json"].

(** The object's two private fields. *)
Record FilePlaidItemStore := {
  items : JsMap PlaidItem;
  filePath : string;
}.

(** What a method runs in: the object it is called on and the world. *)
Record Sys := {
  this : FilePlaidItemStore;
  world : World;
}.

Definition Method (A : Type) : Type := M Sys A.

Definition in_world {A} (m : M World A) : Method A := fun s =>
  let (r, w) := m (world s) in (r, {| this := this s; world := w |}).

Definition returned {A} (r : Result A) : Method A := fun s => (r, s).

Definition set_items (m : JsMap PlaidItem) : Method unit :=
  modify (fun s =>
    {| this := {| items := m; filePath := filePath (this s) |}; world := world s |}).

Definition load : Method unit :=
  try_catch
    (path ← gets (fun s => filePath (this s));
     found ← in_world (existsSync path);
     if found : bool then
       data ← in_world (readFileSync path);
       parsed ← returned (JSON_parse data);
       entries ← returned (Object_entries parsed);
       set_items (new_Map entries)
     else mret tt)
    (fun _ =>
       (* If file doesn't exist or is invalid, start fresh *)
       set_items (new_Map [])).

Definition save : Method unit :=
  try_catch
    (path ← gets (fun s => filePath (this s));
     let dir := dirname path in
     found ← in_world (existsSync dir);
     _ ← (if found : bool then mret tt else in_world (mkdirSync dir));
     m ← gets (fun s => items (this s));
     let data := Object_fromEntries m in
     in_world (writeFileSync path (JSON_stringify data)))
    (fun err =>
       in_world (console_error ("[WARN] Failed to save Plaid items: " +:+ err_message err))).

(** [new FilePlaidItemStore(filePath)]: the field initialiser, the
    assignment and [this.load()]. *)
Definition constructor (filePath : option string) : M World FilePlaidItemStore := fun w =>
  let fresh := {| items := new_Map []; filePath := default DEFAULT_STORE_PATH filePath |} in
  let (r, s) := load {| this := fresh; world := w |} in
  (_ ← r; Ok (this s), world s).

Definition getItem (itemId : string) : Method (option PlaidItem) :=
  gets (fun s => Map_get itemId (items (this s))).

Fixpoint find_item (p : PlaidItem -> bool) (l : list PlaidItem) : option PlaidItem :=
  match l with
  | [] => None
  | item :: l' => if p item then Some item else find_item p l'
  end.

Definition getItemByAccessToken (token : string) : Method (option PlaidItem) :=
  gets (fun s =>
    find_item (fun item => String.eqb (accessToken item) token)
      (Map_values (items (this s)))).

Definition getItemsByUserId (user : string) : Method (list PlaidItem) :=
  gets (fun s =>
    List.filter (fun item => String.eqb (userId item) user)
      (Map_values (items (this s)))).

Definition getAllItems : Method (list PlaidItem) :=
  gets (fun s => Map_values (items (this s))).

Definition saveItem (item : PlaidItem) : Method unit :=
  m ← gets (fun s => items (this s));
  _ ← set_items (Map_set (itemId item) item m);
  save.

Definition updateItem (itemId : string) (updates : Partial_PlaidItem) : Method unit :=
  m ← gets (fun s => items (this s));
  match Map_get itemId m with
  | Some existing =>
      now ← in_world Date_toISOString;
      _ ← set_items (Map_set itemId (spread_updates existing updates now) m);
      save
  | None => mret tt
  end.

Definition deleteItem (itemId : string) : Method unit :=
  m ← gets (fun s => items (this s));
  _ ← set_items (Map_delete itemId m);
  save.

Definition updateSyncCursor (itemId cursor : string) : Method unit :=
  now ← in_world Date_toISOString;
  updateItem itemId
    {| p_itemId := None; p_accessToken := None; p_institutionId := None;
       p_institutionName := None; p_userId := None; p_status := None;
       p_syncCursor := Some (Some cursor); p_lastSyncAt := Some (Some now);
       p_createdAt := None; p_updatedAt := None |}.

Definition updateStatus (itemId : string) (status : PlaidItemStatus) : Method unit :=
  updateItem itemId
    {| p_itemId := None; p_accessToken := None; p_institutionId := None;
       p_institutionName := None; p_userId := None; p_status := Some status;
       p_syncCursor := None; p_lastSyncAt := None;
       p_createdAt := None; p_updatedAt := None |}.

Definition getFilePath : Method string :=
  gets (fun s => filePath (this s)).

End WithHost.

(** ** [load] on any file *)

(** [load] without the belief in the cast: [JSON.parse] returns whatever
    JSON value the text holds, [Object.entries] takes the own enumerable
    properties of it, and [new Map] keeps them, whether or not they are
    items. The module has the store's two fields, the constructor, [load]
    and [getAllItems], and what they call. *)
Module Raw.

(** A JSON value. A number is named by the decimal text
    [JSON.stringify] writes for it. A string holds one character for each
    code unit. An object lists its own properties in the order
    [Object.entries] enumerates them. *)
#[local] Unset Elimination Schemes.
Inductive Json :=
  | JNull
  | JBool (b : bool)
  | JNumber (text : string)
  | JString (s : string)
  | JArray (elements : list Json)
  | JObject (members : JsObject Json).
#[local] Set Elimination Schemes.

(** [JSON.parse(text)] *)
Class Parser := {
  JSON_parse : string -> Result Json;
}.

(** The empty text is not JSON. *)
Class ParserLaws (parser : Parser) : Prop := {
  JSON_parse_empty : exists e, JSON_parse EmptyString = Err e;
}.

(** The elements of an array or the characters of a string under their
    indices. *)
Definition indexed {V} (l : list V) : list (string * V) :=
  imap (fun i v => (pretty i, v)) l.

(** [Object.entries(value)]: throws a [TypeError] on [null]; a boolean or
    a number has no property of its own; a string has its characters and
    an array its elements, under their indices. *)
Definition Object_entries (value : Json) : Result (list (string * Json)) :=
  match value with
  | JNull => Err (TypeError "Cannot convert undefined or null to object")
  | JBool _ => Ok []
  | JNumber _ => Ok []
  | JString s =>
      Ok (indexed ((fun c => JString (String c EmptyString))
                     <$> String.list_ascii_of_string s))
  | JArray elements => Ok (indexed elements)
  | JObject members => Ok members
  end.

Record FilePlaidItemStore := {
  items : JsMap Json;
  filePath : string;
}.

Record Sys := {
  this : FilePlaidItemStore;
  world : World;
}.

Definition in_world {A} (m : M World A) : M Sys A := fun s =>
  let (r, w) := m (world s) in (r, {| this := this s; world := w |}).

Definition returned {A} (r : Result A) : M Sys A := fun s => (r, s).

Definition set_items (m : JsMap Json) : M Sys unit :=
  modify (fun s =>
    {| this := {| items := m; filePath := filePath (this s) |}; world := world s |}).

Section WithParser.
Context {host : Host} {parser : Parser}.

Definition load : M Sys unit :=
  try_catch
    (path ← gets (fun s => filePath (this s));
     found ← in_world (existsSync path);
     if found : bool then
       data ← in_world (readFileSync path);
       parsed ← returned (JSON_parse data);
       entries ← returned (Object_entries parsed);
       set_items (new_Map entries)
     else mret tt)
    (fun _ =>
       (* If file doesn't exist or is invalid, start fresh *)
       set_items (new_Map [])).

Definition constructor (filePath : option string) : M World FilePlaidItemStore := fun w =>
  let fresh := {| items := new_Map []; filePath := default DEFAULT_STORE_PATH filePath |} in
  let (r, s) := load {| this := fresh; world := w |} in
  (_ ← r; Ok (this s), world s).

Definition getAllItems : M Sys (list Json) :=
  gets (fun s => Map_values (items (this s))).

End WithParser.

End Raw.

(** ** A caller's sequence of mutations *)

(** The mutating methods of the store, as data, to speak of every sequence
    of calls a client can make. *)
Inductive Mutation :=
  | CallSaveItem (item : PlaidItem)
  | CallUpdateItem (itemId : string) (updates : Partial_PlaidItem)
  | CallDeleteItem (itemId : string)
  | CallUpdateSyncCursor (itemId cursor : string)
  | CallUpdateStatus (itemId : string) (status : PlaidItemStatus).

Definition call `{Host} (c : Mutation) : Method unit :=
  match c with
  | CallSaveItem item => saveItem item
  | CallUpdateItem itemId updates => updateItem itemId updates
  | CallDeleteItem itemId => deleteItem itemId
  | CallUpdateSyncCursor itemId cursor => updateSyncCursor itemId cursor
  | CallUpdateStatus itemId status => updateStatus itemId status
  end.

Fixpoint calls `{Host} (cs : list Mutation) : Method unit :=
  match cs with
  | [] => mret tt
  | c :: cs' => _ ← call c; calls cs'
  end.

(** The [itemId] a call is about. *)
Definition subject (c : Mutation) : string :=
  match c with
  | CallSaveItem item => itemId item
  | CallUpdateItem itemId _ => itemId
  | CallDeleteItem itemId => itemId
  | CallUpdateSyncCursor itemId _ => itemId
  | CallUpdateStatus itemId _ => itemId
  end.

(** Whether a call gets as far as [save]: an update of an item the store
    lacks does not. *)
Definition reaches_save (c : Mutation) (m : JsMap PlaidItem) : bool :=
  match c with
  | CallSaveItem _ => true
  | CallDeleteItem _ => true
  | CallUpdateItem itemId _ => bool_decide (is_Some (Map_get itemId m))
  | CallUpdateSyncCursor itemId _ => bool_decide (is_Some (Map_get itemId m))
  | CallUpdateStatus itemId _ => bool_decide (is_Some (Map_get itemId m))
  end.

(** ** The mapping as the specification has it *)

(** The specification speaks of the store as a mapping from item
    identifiers to records, with no order, and of each operation as a
    change of that mapping: [saveItem] is an insert-or-replace keyed by
    [itemId]; [updateItem] merges the given fields into the existing
    record and bumps [updatedAt], and is a no-op on an item that does not
    exist; [updateSyncCursor] is an [updateItem] that also sets
    [lastSyncAt] to the current time; [updateStatus] is an [updateItem] of
    the status; [deleteItem] removes the record. [expect] follows these
    words. The current time is the next reading of the clock, and the
    number of readings taken so far goes along with the mapping. *)
Abbreviation Records := (gmap string PlaidItem).

Definition expect_update (clock : nat -> string) (id : string)
    (updates : Partial_PlaidItem) (st : Records * nat) : Records * nat :=
  match st.1 !! id with
  | Some existing =>
      (<[id:=spread_updates existing updates (clock st.2)]> st.1, S st.2)
  | None => st
  end.

Definition expect (clock : nat -> string) (c : Mutation) (st : Records * nat) :
    Records * nat :=
  match c with
  | CallSaveItem item => (<[itemId item:=item]> st.1, st.2)
  | CallUpdateItem id updates => expect_update clock id updates st
  | CallDeleteItem id => (delete id st.1, st.2)
  | CallUpdateSyncCursor id cursor =>
      expect_update clock id
        {| p_itemId := None; p_accessToken := None; p_institutionId := None;
           p_institutionName := None; p_userId := None; p_status := None;
           p_syncCursor := Some (Some cursor);
           p_lastSyncAt := Some (Some (clock st.2));
           p_createdAt := None; p_updatedAt := None |}
        (st.1, S st.2)
  | CallUpdateStatus id status =>
      expect_update clock id
        {| p_itemId := None; p_accessToken := None; p_institutionId := None;
           p_institutionName := None; p_userId := None; p_status := Some status;
           p_syncCursor := None; p_lastSyncAt := None;
           p_createdAt := None; p_updatedAt := None |}
        st
  end.

Definition expect_all (clock : nat -> string) (cs : list Mutation)
    (st : Records * nat) : Records * nat :=
  foldl (fun st' c => expect clock c st') st cs.

(** The [Map] of a store, read as a mapping. *)
Definition mapping_of (m : JsMap PlaidItem) : Records := list_to_map m.

(** The save path can write the store's file: the disk takes writes, the
    path is not a directory nor one of the directories above it, and none
    of the directories above it is a regular file, so that each of them
    is a directory or can be made one. *)
Definition can_write `{Host} (path : string) (d : Disk) : bool :=
  negb (readonly d)
  && bool_decide (path ∉ lineage (dirname path))
  && negb (existsb (is_file (nodes d)) (lineage (dirname path)))
  && match nodes d !! path with Some Dir => false | _ => true end.

(** Whether the disk lets [writeFileSync] through, and what it holds when
    [save] is done with it: the directories made on the way, and the file
    if the write went through. *)
Definition lets_write `{Host} (path : string) (d : Disk) : bool :=
  negb (existsb (is_file (nodes d)) (lineage (dirname path)))
  && match nodes d !! dirname path with Some Dir => true | _ => false end
  && match nodes d !! path with Some Dir => false | _ => true end
  && negb (readonly d).

Definition after_mkdir `{Host} (path : string) (d : Disk) : Disk :=
  match nodes d !! dirname path with
  | None =>
      if existsb (is_file (nodes d)) (lineage (dirname path)) || readonly d then d
      else {| nodes := make_dirs (lineage (dirname path)) (nodes d);
              readonly := readonly d |}
  | Some _ => d
  end.

Definition after_write `{Host} (path data : string) (d : Disk) : Disk :=
  if lets_write path d then
    {| nodes := <[path:=File data]> (nodes d); readonly := readonly d |}
  else d.

(** The store and its file agree: the mapping holds each key once, the
    file can be written, and a store constructed over the file as it is
    now holds the entries of the mapping. *)
Definition in_sync `{Host} (s : Sys) : Prop :=
  NoDup (Map_keys (items (this s)))
  /\ can_write (filePath (this s)) (disk (world s)) = true
  /\ exists store', (constructor (Some (filePath (this s))) (world s)).1 = Ok store'
       /\ items store' ≡ₚ items (this s).

(** ** The gateway ([link.ts]) *)

Module Link.

(** [Products] and [CountryCode] are enumerations of the provider's SDK,
    whose members are strings at run time. *)
Definition Products : Type := string.
Definition Products_Transactions : Products := "transactions".
Definition CountryCode : Type := string.
Definition CountryCode_Us : CountryCode := "US".

(** Modelled from the spec: the option, configuration and result types are
    declared in [types.ts] and [client.ts], which are not among the
    sources; the fields are the ones [link.ts] reads and writes, optional
    where it tests them against [undefined]. *)
Record CreateLinkTokenOptions := {
  userId : string;
  products : option (list Products);
  countryCodes : option (list CountryCode);
  language : option string;
  webhookUrl : option string;
  redirectUri : option string;
  accessToken : option string;
}.

Record PlaidConfig := {
  config_webhookUrl : option string;
  config_redirectUri : option string;
}.

Record CreateLinkTokenResult := {
  linkToken : string;
  expiration : string;
  requestId : string;
}.

Record ExchangePublicTokenResult := {
  exchanged_accessToken : string;
  exchanged_itemId : string;
  exchanged_requestId : string;
}.

Record RemoveItemResult := {
  removed : bool;
  removed_requestId : string;
}.

(** The wire objects. An absent property is [None]. Where two of these
    types have a field of the same name, the later one carries a prefix. *)
Record LinkTokenCreateRequest := {
  user_client_user_id : string;
  client_name : string;
  request_products : list Products;
  country_codes : list CountryCode;
  request_language : string;
  webhook : option string;
  redirect_uri : option string;
  access_token : option string;
}.

Record LinkTokenCreateResponse := {
  link_token : string;
  response_expiration : string;
  link_request_id : string;
}.

Record ItemPublicTokenExchangeResponse := {
  exchange_access_token : string;
  exchange_item_id : string;
  exchange_request_id : string;
}.

Record ItemRemoveResponse := {
  remove_request_id : string;
}.

(** What the HTTP client resolves a call to: the payload and the rest of
    the transport's reply. *)
Record AxiosResponse (D : Type) := {
  data : D;
  http_status : N;
  http_statusText : string;
}.
Arguments data {D} _.
Arguments http_status {D} _.
Arguments http_statusText {D} _.

(** The provider's client: each call resolves to a response or rejects.
    The two requests that are an object of one field, [public_token] and
    [access_token], are passed as that field. *)
Record PlaidApi := {
  linkTokenCreate : LinkTokenCreateRequest -> Result (AxiosResponse LinkTokenCreateResponse);
  itemPublicTokenExchange : string -> Result (AxiosResponse ItemPublicTokenExchangeResponse);
  itemRemove : string -> Result (AxiosResponse ItemRemoveResponse);
}.

Section Gateway.
(** [getPlaidClient()] and [getPlaidConfig()] of [client.ts]: each returns
    its value or throws. *)
Context (getPlaidClient : Result PlaidApi) (getPlaidConfig : Result PlaidConfig).

(** [a ?? b] *)
Definition nullish {A} (a b : option A) : option A :=
  match a with
  | Some x => Some x
  | None => b
  end.

(** The [request] object literal of [createLinkToken]. A conditional
    spread [...(c ? { k: v } : {})] adds the property when [c] holds. *)
Definition linkTokenCreateRequest (options : CreateLinkTokenOptions)
    (config : PlaidConfig) : LinkTokenCreateRequest :=
  {| user_client_user_id := userId options;
     client_name := "BOA Statement Parser";
     request_products := default [Products_Transactions] (products options);
     country_codes := default [CountryCode_Us] (countryCodes options);
     request_language := default "en" (language options);
     webhook :=
       if bool_decide (webhookUrl options <> None) || bool_decide (config_webhookUrl config <> None)
       then nullish (webhookUrl options) (config_webhookUrl config)
       else None;
     redirect_uri :=
       if bool_decide (redirectUri options <> None) || bool_decide (config_redirectUri config <> None)
       then nullish (redirectUri options) (config_redirectUri config)
       else None;
     access_token :=
       if bool_decide (accessToken options <> None) then accessToken options else None |}.

Definition createLinkToken (options : CreateLinkTokenOptions) : Result CreateLinkTokenResult :=
  client ← getPlaidClient;
  config ← getPlaidConfig;
  response ← linkTokenCreate client (linkTokenCreateRequest options config);
  mret {| linkToken := link_token (data response);
          expiration := response_expiration (data response);
          requestId := link_request_id (data response) |}.

Definition createUpdateLinkToken (userId accessToken : string) : Result CreateLinkTokenResult :=
  createLinkToken
    {| userId := userId; products := None; countryCodes := None; language := None;
       webhookUrl := None; redirectUri := None; accessToken := Some accessToken |}.

Definition exchangePublicToken (publicToken : string) : Result ExchangePublicTokenResult :=
  client ← getPlaidClient;
  response ← itemPublicTokenExchange client publicToken;
  mret {| exchanged_accessToken := exchange_access_token (data response);
          exchanged_itemId := exchange_item_id (data response);
          exchanged_requestId := exchange_request_id (data response) |}.

Definition removeItem (accessToken : string) : Result RemoveItemResult :=
  client ← getPlaidClient;
  response ← itemRemove client accessToken;
  mret {| removed := true;
          removed_requestId := remove_request_id (data response) |}.

End Gateway.
End Link.

(** ** A host to run the store on *)

(** A small host that satisfies [HostLaws], to evaluate the store on
    concrete worlds. Its [JSON] is a codec with the round-trip property,
    not the JSON grammar: a document is flattened to its strings and the
    list of strings written as binary digits after an opening brace. Its
    [path] functions are the POSIX ones on paths without a trailing
    slash. *)
Module Sample.

Definition flatten_option (o : option string) : string :=
  match o with
  | None => EmptyString
  | Some s => String "="%char s
  end.

Definition unflatten_option (s : string) : option string :=
  match s with
  | EmptyString => None
  | String _ s' => Some s'
  end.

Fixpoint flatten (o : JsObject PlaidItem) : list string :=
  match o with
  | [] => []
  | (k, i) :: o' =>
      k :: itemId i :: accessToken i :: institutionId i :: institutionName i
        :: userId i :: status i :: flatten_option (syncCursor i)
        :: flatten_option (lastSyncAt i) :: createdAt i :: updatedAt i
        :: flatten o'
  end.

Fixpoint unflatten (l : list string) : option (JsObject PlaidItem) :=
  match l with
  | [] => Some []
  | k :: f1 :: f2 :: f3 :: f4 :: f5 :: f6 :: f7 :: f8 :: f9 :: f10 :: l' =>
      o' ← unflatten l';
      Some ((k, {| itemId := f1; accessToken := f2; institutionId := f3;
                   institutionName := f4; userId := f5; status := f6;
                   syncCursor := unflatten_option f7;
                   lastSyncAt := unflatten_option f8;
                   createdAt := f9; updatedAt := f10 |}) :: o')
  | _ => None
  end.

Fixpoint digits (p : positive) : string :=
  match p with
  | xH => EmptyString
  | xO p' => String "0"%char (digits p')
  | xI p' => String "1"%char (digits p')
  end.

Fixpoint undigits (s : string) : option positive :=
  match s with
  | EmptyString => Some xH
  | String c s' =>
      if Ascii.eqb c "0"%char then xO <$> undigits s'
      else if Ascii.eqb c "1"%char then xI <$> undigits s'
      else None
  end.

Definition stringify (o : JsObject PlaidItem) : string :=
  String "{"%char (digits (encode (flatten o))).

Definition parse (text : string) : Result JsonDoc :=
  match text with
  | String c s' =>
      if Ascii.eqb c "{"%char then
        match p ← undigits s'; l ← decode (A:=list string) p; unflatten l with
        | Some o => Ok (JsonRecord o)
        | None => Err (SyntaxError "Unexpected token in JSON")
        end
      else if String.eqb text "null" then Ok JsonNull
      else Err (SyntaxError "Unexpected token in JSON")
  | EmptyString => Err (SyntaxError "Unexpected end of JSON input")
  end.

(** A record as a JSON object: its fields, the optional ones only when
    they are there. *)
Definition item_json (item : PlaidItem) : Raw.Json :=
  Raw.JObject
    ([("itemId", Raw.JString (itemId item));
      ("accessToken", Raw.JString (accessToken item));
      ("institutionId", Raw.JString (institutionId item));
      ("institutionName", Raw.JString (institutionName item));
      ("userId", Raw.JString (userId item));
      ("status", Raw.JString (status item))]
     ++ from_option (fun cursor => [("syncCursor", Raw.JString cursor)]) []
          (syncCursor item)
     ++ from_option (fun time => [("lastSyncAt", Raw.JString time)]) []
          (lastSyncAt item)
     ++ [("createdAt", Raw.JString (createdAt item));
         ("updatedAt", Raw.JString (updatedAt item))]).

(** The elements of an array text after its opening bracket, up to the
    closing one, which has to end the text. *)
Fixpoint read_elements (text current : string) (read : list string) :
    option (list string) :=
  match text with
  | EmptyString => None
  | String c text' =>
      if Ascii.eqb c "]"%char then
        if String.eqb text' EmptyString then Some (rev (current :: read)) else None
      else if Ascii.eqb c ","%char then read_elements text' EmptyString (current :: read)
      else read_elements text' (current +:+ String c EmptyString) read
  end.

(** A whole number in the spelling [JSON.stringify] gives it. *)
Definition whole_number (text : string) : bool :=
  match array_index text with
  | Some _ => true
  | None => false
  end.

(** A reader of the texts the samples hold: what [parse] reads, and of
    other JSON [true], [false], a whole number, and an array of whole
    numbers written without spaces. *)
Definition parse_value (text : string) : Result Raw.Json :=
  match parse text with
  | Ok (JsonRecord o) => Ok (Raw.JObject (prod_map id item_json <$> o))
  | Ok JsonNull => Ok Raw.JNull
  | Err e =>
      if String.eqb text "true" then Ok (Raw.JBool true)
      else if String.eqb text "false" then Ok (Raw.JBool false)
      else if whole_number text then Ok (Raw.JNumber text)
      else
        match text with
        | String c rest =>
            if Ascii.eqb c "["%char then
              if String.eqb rest "]" then Ok (Raw.JArray [])
              else
                match read_elements rest EmptyString [] with
                | Some elements =>
                    if forallb whole_number elements
                    then Ok (Raw.JArray (Raw.JNumber <$> elements))
                    else Err e
                | None => Err e
                end
            else Err e
        | EmptyString => Err e
        end
  end.

#[export] Instance parser : Raw.Parser := {|
  Raw.JSON_parse := parse_value;
|}.

Fixpoint drop_segment (cs : list Ascii.ascii) : list Ascii.ascii :=
  match cs with
  | [] => []
  | c :: cs' => if Ascii.eqb c "/"%char then cs' else drop_segment cs'
  end.

Definition posix_dirname (path : string) : string :=
  let cs := String.list_ascii_of_string path in
  match rev (drop_segment (rev cs)) with
  | [] => if String.prefix "/" path then "/" else "."
  | d => String.string_of_list_ascii d
  end.

Definition posix_join (parts : list string) : string :=
  String.concat "/" parts.

#[export] Instance host : Host := {|
  JSON_stringify := stringify;
  JSON_parse := parse;
  dirname := posix_dirname;
  join := posix_join;
  homedir := "/home/op";
|}.

(** A clock that ticks a millisecond per reading, for ten readings. *)
Definition ticking (n : nat) : string :=
  "2026-01-01T00:00:00.00" +:+ String (Ascii.ascii_of_nat (48 + n `mod` 10)) "Z".

(** A clock read several times within one millisecond. *)
Definition stalled (n : nat) : string := "2026-01-01T00:00:00.000Z".

Definition empty_disk : Disk := {| nodes := ∅; readonly := false |}.

Definition world_at (c : nat -> string) (d : Disk) : World :=
  {| disk := d; clock := c; ticks := 0; console := [] |}.

Definition item_A : PlaidItem :=
  {| itemId := "item-A"; accessToken := "access-sandbox-1";
     institutionId := "ins_109508"; institutionName := "Sandbox Bank";
     userId := "user-1"; status := "active";
     syncCursor := None; lastSyncAt := None;
     createdAt := "2025-12-31T09:00:00.000Z";
     updatedAt := "2025-12-31T09:00:00.000Z" |}.

Definition item_7 : PlaidItem :=
  {| itemId := "7"; accessToken := "access-sandbox-2";
     institutionId := "ins_109508"; institutionName := "Sandbox Bank";
     userId := "user-1"; status := "active";
     syncCursor := Some "c0"; lastSyncAt := Some "2026-01-01T00:00:00.000Z";
     createdAt := "2025-12-31T10:00:00.000Z";
     updatedAt := "2026-01-01T00:00:00.000Z" |}.

(** The same link made again: the provider's item under a new access
    token, with the creation time of the new link. *)
Definition item_A_relinked : PlaidItem :=
  {| itemId := "item-A"; accessToken := "access-sandbox-9";
     institutionId := "ins_109508"; institutionName := "Sandbox Bank";
     userId := "user-1"; status := "active";
     syncCursor := None; lastSyncAt := None;
     createdAt := "2026-01-01T00:00:00.000Z";
     updatedAt := "2025-12-31T09:00:00.000Z" |}.

(** [item_A] after a sync at the first reading of the [stalled] clock. *)
Definition item_A_synced (cursor : string) : PlaidItem :=
  {| itemId := "item-A"; accessToken := "access-sandbox-1";
     institutionId := "ins_109508"; institutionName := "Sandbox Bank";
     userId := "user-1"; status := "active";
     syncCursor := Some cursor; lastSyncAt := Some "2026-01-01T00:00:00.000Z";
     createdAt := "2025-12-31T09:00:00.000Z";
     updatedAt := "2026-01-01T00:00:00.000Z" |}.

Definition store_file : string := "/d/plaid-items.json".

(** A store over an empty disk, before any call. *)
Definition fresh_store (c : nat -> string) : Sys :=
  {| this := {| items := []; filePath := store_file |};
     world := world_at c empty_disk |}.

(** A store that holds [item_A]. *)
Definition store_of_A (c : nat -> string) : Sys :=
  {| this := {| items := [("item-A", item_A)]; filePath := store_file |};
     world := world_at c empty_disk |}.

(** A store that holds [item_7], which was last synced at the first
    reading of the [ticking] clock, when the clock is at its second. *)
Definition store_of_7 : Sys :=
  {| this := {| items := [("7", item_7)]; filePath := store_file |};
     world := {| disk := empty_disk; clock := ticking; ticks := 1; console := [] |} |}.

(** A disk whose store file is empty. *)
Definition disk_with_empty_file : Disk :=
  {| nodes := {[ "/d" := Dir; store_file := File EmptyString ]}; readonly := false |}.

(** A disk whose store file holds well-formed JSON that is not a record
    of items. *)
Definition disk_with_an_array : Disk :=
  {| nodes := {[ "/d" := Dir; store_file := File "[1,2]" ]}; readonly := false |}.

(** A disk where a regular file stands in the place of a directory above
    the store file. *)
Definition disk_with_a_file_in_the_way : Disk :=
  {| nodes := {[ "/d" := File "notes" ]}; readonly := false |}.

Definition no_options (user : string) : Link.CreateLinkTokenOptions :=
  {| Link.userId := user; Link.products := None; Link.countryCodes := None;
     Link.language := None; Link.webhookUrl := None; Link.redirectUri := None;
     Link.accessToken := None |}.

Definition config_with_webhook : Link.PlaidConfig :=
  {| Link.config_webhookUrl := Some "https://example.test/hook";
     Link.config_redirectUri := None |}.

(** A provider that answers every call. *)
Definition answering : Link.PlaidApi :=
  {| Link.linkTokenCreate := fun _ =>
       Ok {| Link.data := {| Link.link_token := "link-sandbox-1";
                             Link.response_expiration := "2026-01-01T04:00:00Z";
                             Link.link_request_id := "req-1" |};
             Link.http_status := 200; Link.http_statusText := "OK" |};
     Link.itemPublicTokenExchange := fun _ =>
       Ok {| Link.data := {| Link.exchange_access_token := "access-sandbox-1";
                             Link.exchange_item_id := "item-A";
                             Link.exchange_request_id := "req-2" |};
             Link.http_status := 200; Link.http_statusText := "OK" |};
     Link.itemRemove := fun _ =>
       Ok {| Link.data := {| Link.remove_request_id := "req-3" |};
             Link.http_status := 200; Link.http_statusText := "OK" |} |}.

End Sample.

(** ** The module's default store ([getFilePlaidItemStore]) *)

(** A running process: the stores it has constructed, by address, the
    module variable [defaultFileStore], and the world. A store is reached
    through its address, so that two holders of the same store see each
    other's writes. *)
Record Process := {
  heap : list FilePlaidItemStore;
  defaultFileStore : option nat;
  os : World;
}.

(** A process that has just started over a world. *)
Definition boot (w : World) : Process :=
  {| heap := []; defaultFileStore := None; os := w |}.

Definition in_os {A} (m : M World A) : M Process A := fun p =>
  let (r, w) := m (os p) in
  (r, {| heap := heap p; defaultFileStore := defaultFileStore p; os := w |}).

Definition set_defaultFileStore (store : option nat) : M Process unit :=
  modify (fun p => {| heap := heap p; defaultFileStore := store; os := os p |}).

Section DefaultStore.
Context {host : Host}.

(** [new FilePlaidItemStore(filePath)], the object going to a new address. *)
Definition new_FilePlaidItemStore (filePath : option string) : M Process nat :=
  obj ← in_os (constructor filePath);
  address ← gets (fun p => length (heap p));
  _ ← modify (fun p =>
        {| heap := heap p ++ [obj]; defaultFileStore := defaultFileStore p; os := os p |});
  mret address.

(** [store.method(...)]: the method runs on the object at the address and
    leaves there what it made of it. *)
Definition on {A} (store : nat) (method : Method A) : M Process A := fun p =>
  match heap p !! store with
  | Some obj =>
      let (r, s) := method {| this := obj; world := os p |} in
      (r, {| heap := <[store:=this s]> (heap p);
             defaultFileStore := defaultFileStore p; os := world s |})
  | None => (Err (TypeError "Cannot read properties of undefined"), p)
  end.

Definition getFilePlaidItemStore (filePath : option string) : M Process nat :=
  let construct : M Process nat :=
    store ← new_FilePlaidItemStore filePath;
    _ ← set_defaultFileStore (Some store);
    mret store in
  current ← gets defaultFileStore;
  match current with
  | None => construct
  | Some store =>
      match filePath with
      | Some path =>
          currentPath ← on store getFilePath;
          if negb (String.eqb path currentPath) then construct else mret store
      | None => mret store
      end
  end.

Definition resetFilePlaidItemStore : M Process unit :=
  set_defaultFileStore None.

End DefaultStore.

(** ** The rest of the gateway ([link.ts]) *)

Module LinkMore.
Import Link.

(** Modelled from the spec: [PlaidError] is declared in [types.ts], which
    is not among the sources; of the provider's error the model keeps the
    message, the one field the command line reads. *)
Record PlaidError := {
  errorMessage : string;
}.

(** The wire objects of the three remaining calls, with the fields
    [link.ts] reads or writes. [None] is a property that is absent or
    [null]. *)
Record Item := {
  item_id : string;
  institution_id : option string;
  available_products : list Products;
  billed_products : list Products;
  consent_expiration_time : option string;
  update_type : string;
  error : option PlaidError;
}.

Record ItemGetResponse := {
  item : Item;
}.

Record InstitutionsGetByIdRequest := {
  request_institution_id : string;
  request_country_codes : list CountryCode;
  include_optional_metadata : bool;
}.

Record Institution := {
  institution_institution_id : string;
  name : string;
  url : option string;
  logo : option string;
  primary_color : option string;
  institution_country_codes : list string;
  institution_products : list Products;
}.

Record InstitutionsGetByIdResponse := {
  institution : Institution;
}.

Record SandboxPublicTokenCreateRequest := {
  sandbox_institution_id : string;
  initial_products : list Products;
}.

Record SandboxPublicTokenCreateResponse := {
  public_token : string;
  sandbox_request_id : string;
}.

(** The client object: the three methods of [PlaidApi] and the three the
    rest of the gateway calls. *)
Record PlaidClient := {
  api : PlaidApi;
  itemGet : string -> Result (AxiosResponse ItemGetResponse);
  institutionsGetById :
    InstitutionsGetByIdRequest -> Result (AxiosResponse InstitutionsGetByIdResponse);
  sandboxPublicTokenCreate :
    SandboxPublicTokenCreateRequest -> Result (AxiosResponse SandboxPublicTokenCreateResponse);
}.

(** What [getItem] and [getInstitution] resolve to. [None] is [null]. *)
Record ItemInfo := {
  itemId : string;
  institutionId : option string;
  availableProducts : list Products;
  billedProducts : list Products;
  consentExpirationTime : option string;
  updateType : string;
  item_error : option PlaidError;
}.

Record InstitutionInfo := {
  info_institutionId : string;
  info_name : string;
  info_url : option string;
  info_logo : option string;
  primaryColor : option string;
  countryCodes : list string;
  info_products : list Products;
}.

Record SandboxPublicToken := {
  publicToken : string;
  sandbox_requestId : string;
}.

Section Gateway.
Context (getPlaidClient : Result PlaidClient).

Definition getItem (accessToken : string) : Result ItemInfo :=
  client ← getPlaidClient;
  response ← itemGet client accessToken;
  let item_ := item (data response) in
  mret {| itemId := item_id item_;
          institutionId := institution_id item_;
          availableProducts := available_products item_;
          billedProducts := billed_products item_;
          consentExpirationTime := consent_expiration_time item_;
          updateType := update_type item_;
          item_error := error (item (data response)) |}.

Definition getInstitution (institutionId : string) : Result InstitutionInfo :=
  client ← getPlaidClient;
  response ← institutionsGetById client
    {| request_institution_id := institutionId;
       request_country_codes := [CountryCode_Us];
       include_optional_metadata := true |};
  let institution_ := institution (data response) in
  mret {| info_institutionId := institution_institution_id institution_;
          info_name := name institution_;
          info_url := url institution_;
          info_logo := logo institution_;
          primaryColor := primary_color institution_;
          countryCodes := institution_country_codes institution_;
          info_products := institution_products institution_ |}.

(** The two parameters have defaults: a well-known sandbox institution
    and the transactions product. *)
Definition createSandboxPublicToken (institutionId : option string)
    (products : option (list Products)) : Result SandboxPublicToken :=
  client ← getPlaidClient;
  response ← sandboxPublicTokenCreate client
    {| sandbox_institution_id := default "ins_109508" institutionId;
       initial_products := default [Products_Transactions] products |};
  mret {| publicToken := public_token (data response);
          sandbox_requestId := sandbox_request_id (data response) |}.

End Gateway.
End LinkMore.

(** ** The command line's [plaid] command *)

(** How a command ends: it returns, it throws, or it calls
    [process.exit(code)], after which nothing runs, not even a [catch]. *)
Inductive Outcome (A : Type) :=
  | Returned (a : A)
  | Thrown (e : Error)
  | Exited (code : nat).
Arguments Returned {A} a.
Arguments Thrown {A} e.
Arguments Exited {A} code.

Definition Cli (A : Type) : Type := Process -> Outcome A * Process.

#[global] Instance Cli_ret : MRet Cli := fun A a p => (Returned a, p).
#[global] Instance Cli_bind : MBind Cli := fun A B f m p =>
  match m p with
  | (Returned a, p') => f a p'
  | (Thrown e, p') => (Thrown e, p')
  | (Exited code, p') => (Exited code, p')
  end.

(** A call into the store or the runtime, awaited. *)
Definition run {A} (m : M Process A) : Cli A := fun p =>
  match m p with
  | (Ok a, p') => (Returned a, p')
  | (Err e, p') => (Thrown e, p')
  end.

(** [await promise] of a gateway call. *)
Definition await {A} (r : Result A) : Cli A := fun p =>
  match r with
  | Ok a => (Returned a, p)
  | Err e => (Thrown e, p)
  end.

(** [process.exit(code)] *)
Definition process_exit {A} (code : nat) : Cli A := fun p => (Exited code, p).

(** [try { body } catch (error) { handler }] *)
Definition cli_try_catch {A} (body : Cli A) (handler : Error -> Cli A) : Cli A :=
  fun p =>
    match body p with
    | (Thrown e, p') => handler e p'
    | done => done
    end.

(** [console.error(line)] *)
Definition say (line : string) : Cli unit := run (in_os (console_error line)).

(** The process after the lines have gone to the console. *)
Definition logged (lines : list string) (p : Process) : Process :=
  {| heap := heap p; defaultFileStore := defaultFileStore p;
     os := {| disk := disk (os p); clock := clock (os p); ticks := ticks (os p);
              console := console (os p) ++ lines |} |}.

(** [for (const x of xs) { body }] *)
Fixpoint for_each {A} (xs : list A) (body : A -> Cli unit) : Cli unit :=
  match xs with
  | [] => mret tt
  | x :: xs' => _ ← body x; for_each xs' body
  end.

(** The options of the [plaid] command. [None] is an option that was not
    given. *)
Record PlaidOptions := {
  opt_itemId : option string;
  opt_userId : option string;
  opt_full : option bool;
  opt_verbose : option bool;
}.

(** [value === undefined || value === ''] *)
Definition missing (value : option string) : bool :=
  match value with
  | None => true
  | Some s => String.eqb s EmptyString
  end.

(** Modelled from the spec: the account type is declared in [types.ts],
    which is not among the sources; the fields are the four the [link]
    action prints, the last two nullable. *)
Record Account := {
  acc_name : string;
  acc_type : string;
  acc_subtype : option string;
  acc_mask : option string;
}.

Section PlaidCommand.
Context {host : Host}.

(** What the command imports from modules that are not among the
    sources: whether the provider is configured, the client, the account
    listing, the stack trace an error carries, and the actions ([test],
    [sync], [reconcile], [identity], [auth], [liabilities], [holdings])
    whose work is done there. *)
Context (isPlaidConfigured : bool)
        (getPlaidClient : Result LinkMore.PlaidClient)
        (getAccounts : string -> Result (list Account))
        (stack : Error -> option string)
        (elsewhere : string -> nat -> PlaidOptions -> Cli unit).

Definition plaid_link (store : nat) (options : PlaidOptions) : Cli unit :=
  if missing (opt_userId options) then
    _ ← say "[ERROR] --user-id is required for link";
    process_exit 1
  else
    let userId := default EmptyString (opt_userId options) in
    _ ← say "[INFO] Creating sandbox public token for testing...";
    sandbox ← await (LinkMore.createSandboxPublicToken getPlaidClient None None);
    let publicToken := LinkMore.publicToken sandbox in
    _ ← say ("[INFO] Public token: " +:+ String.substring 0 20 publicToken +:+ "...");
    _ ← say "[INFO] Exchanging for access token...";
    exchangeResult ← await (Link.exchangePublicToken
                              (LinkMore.api <$> getPlaidClient) publicToken);
    _ ← say ("[SUCCESS] Item linked: " +:+ Link.exchanged_itemId exchangeResult);
    (* Get item details *)
    itemInfo ← await (LinkMore.getItem getPlaidClient
                        (Link.exchanged_accessToken exchangeResult));
    _ ← say ("[INFO] Institution: " +:+ default "null" (LinkMore.institutionId itemInfo));
    (* Get accounts *)
    accounts ← await (getAccounts (Link.exchanged_accessToken exchangeResult));
    _ ← say ("[INFO] Accounts: " +:+ pretty (length accounts));
    _ ← for_each accounts (fun acc =>
          say ("  - " +:+ acc_name acc +:+ " (" +:+ acc_type acc +:+ "/"
               +:+ default "N/A" (acc_subtype acc) +:+ ") ****"
               +:+ default "????" (acc_mask acc)));
    (* Save to file store for persistence *)
    created ← run (in_os Date_toISOString);
    updated ← run (in_os Date_toISOString);
    _ ← run (on store (saveItem
          {| itemId := Link.exchanged_itemId exchangeResult;
             accessToken := Link.exchanged_accessToken exchangeResult;
             institutionId := default "unknown" (LinkMore.institutionId itemInfo);
             institutionName := "Sandbox Bank";
             userId := userId;
             status := "active";
             syncCursor := None;
             lastSyncAt := None;
             createdAt := created;
             updatedAt := updated |}));
    _ ← say EmptyString;
    _ ← say "=== Link Complete ===";
    _ ← say ("Item ID: " +:+ Link.exchanged_itemId exchangeResult);
    path ← run (on store getFilePath);
    _ ← say ("Stored at: " +:+ path);
    _ ← say EmptyString;
    _ ← say "Next steps:";
    _ ← say "  pnpm parse-boa plaid list              # List all linked items";
    say "  pnpm parse-boa plaid sync --item-id <id>  # Sync transactions".

Definition plaid_list (store : nat) : Cli unit :=
  items ← run (on store getAllItems);
  if Nat.eqb (length items) 0 then
    _ ← say "[INFO] No Plaid items linked yet.";
    say "Use: pnpm parse-boa plaid link"
  else
    _ ← say EmptyString;
    _ ← say "=== Linked Plaid Items ===";
    _ ← for_each items (fun item =>
          _ ← say EmptyString;
          _ ← say ("  Item ID:     " +:+ itemId item);
          _ ← say ("  Institution: " +:+ institutionName item);
          _ ← say ("  Status:      " +:+ status item);
          say ("  Last Sync:   " +:+ default "Never" (lastSyncAt item)));
    _ ← say EmptyString;
    path ← run (on store getFilePath);
    say ("Store file: " +:+ path).

Definition plaid_status (store : nat) (options : PlaidOptions) : Cli unit :=
  if missing (opt_itemId options) then
    _ ← say "[ERROR] --item-id is required for status";
    _ ← say "Use: pnpm parse-boa plaid list  to see available items";
    process_exit 1
  else
    let id := default EmptyString (opt_itemId options) in
    found ← run (on store (getItem id));
    match found with
    | None =>
        _ ← say ("[ERROR] Item not found: " +:+ id);
        process_exit 1
    | Some item =>
        itemInfo ← await (LinkMore.getItem getPlaidClient (accessToken item));
        _ ← say EmptyString;
        _ ← say "=== Item Status ===";
        _ ← say ("Item ID:      " +:+ itemId item);
        _ ← say ("Institution:  " +:+ institutionName item);
        _ ← say ("Status:       " +:+ status item);
        _ ← say ("Last Sync:    " +:+ default "Never" (lastSyncAt item));
        _ ← say ("Cursor:       " +:+ (if syncCursor item is Some _ then "Set" else "Not set"));
        _ ← say ("Update Type:  " +:+ LinkMore.updateType itemInfo);
        match LinkMore.item_error itemInfo with
        | Some e => say ("Error:        " +:+ LinkMore.errorMessage e)
        | None => mret tt
        end
    end.

Definition plaid_remove (store : nat) (options : PlaidOptions) : Cli unit :=
  if missing (opt_itemId options) then
    _ ← say "[ERROR] --item-id is required for remove";
    _ ← say "Use: pnpm parse-boa plaid list  to see available items";
    process_exit 1
  else
    let id := default EmptyString (opt_itemId options) in
    removeItemData ← run (on store (getItem id));
    match removeItemData with
    | None =>
        _ ← say ("[ERROR] Item not found: " +:+ id);
        process_exit 1
    | Some data =>
        _ ← say ("[INFO] Removing item: " +:+ id);
        _ ← await (Link.removeItem (LinkMore.api <$> getPlaidClient) (accessToken data));
        _ ← run (on store (deleteItem id));
        say "[SUCCESS] Item removed"
    end.

(** The action of [program.command('plaid')]. *)
Definition plaid_command (action : string) (options : PlaidOptions) : Cli unit :=
  (* Use file-based store for CLI persistence *)
  store ← run (getFilePlaidItemStore None);
  _ ← (if negb isPlaidConfigured then
         _ ← say "[ERROR] Plaid is not configured.";
         _ ← say EmptyString;
         _ ← say "Please set the following environment variables:";
         _ ← say "  PLAID_CLIENT_ID=your-client-id";
         _ ← say "  PLAID_SECRET=your-secret";
         _ ← say "  PLAID_ENV=sandbox (or production)";
         _ ← say EmptyString;
         _ ← say "Get these from: https://dashboard.plaid.com/team/keys";
         process_exit 1
       else mret tt);
  cli_try_catch
    (if String.eqb action "link" then plaid_link store options
     else if String.eqb action "list" then plaid_list store
     else if String.eqb action "status" then plaid_status store options
     else if String.eqb action "remove" then plaid_remove store options
     else if bool_decide (action ∈ ["test"; "sync"; "reconcile"; "identity";
                                    "auth"; "liabilities"; "holdings"])
     then elsewhere action store options
     else
       _ ← say ("[ERROR] Unknown action: " +:+ action);
       _ ← say "Valid actions: link, list, status, sync, remove, reconcile, identity, auth, liabilities, holdings, test";
       process_exit 1)
    (fun error =>
       let message := err_message error in
       _ ← say ("[ERROR] " +:+ message);
       _ ← (if bool_decide (opt_verbose options = Some true) then
              match stack error with
              | Some trace => say trace
              | None => mret tt
              end
            else mret tt);
       process_exit 1).

End PlaidCommand.

(** ** A provider and a linked item to run the command on *)

Module Scenario.
Import Sample.

(** A provider that answers every call. *)
Definition client : LinkMore.PlaidClient :=
  {| LinkMore.api := answering;
     LinkMore.itemGet := fun _ =>
       Ok {| Link.data :=
               {| LinkMore.item :=
                    {| LinkMore.item_id := "item-A";
                       LinkMore.institution_id := Some "ins_109508";
                       LinkMore.available_products := ["balance"];
                       LinkMore.billed_products := ["transactions"];
                       LinkMore.consent_expiration_time := None;
                       LinkMore.update_type := "background";
                       LinkMore.error := None |} |};
             Link.http_status := 200; Link.http_statusText := "OK" |};
     LinkMore.institutionsGetById := fun _ =>
       Err (SystemError "ECONNREFUSED" "connect ECONNREFUSED 127.0.0.1:443");
     LinkMore.sandboxPublicTokenCreate := fun _ =>
       Ok {| Link.data :=
               {| LinkMore.public_token := "public-sandbox-0123456789abcdef";
                  LinkMore.sandbox_request_id := "req-0" |};
             Link.http_status := 200; Link.http_statusText := "OK" |} |}.

(** The same provider when its item-remove call is rejected. *)
Definition client_refusing_remove : LinkMore.PlaidClient :=
  {| LinkMore.api :=
       {| Link.linkTokenCreate := Link.linkTokenCreate answering;
          Link.itemPublicTokenExchange := Link.itemPublicTokenExchange answering;
          Link.itemRemove := fun _ =>
            Err (SystemError "ERR_BAD_REQUEST" "Request failed with status code 400") |};
     LinkMore.itemGet := LinkMore.itemGet client;
     LinkMore.institutionsGetById := LinkMore.institutionsGetById client;
     LinkMore.sandboxPublicTokenCreate := LinkMore.sandboxPublicTokenCreate client |}.

Definition checking : Account :=
  {| acc_name := "Plaid Checking"; acc_type := "depository";
     acc_subtype := Some "checking"; acc_mask := Some "0000" |}.

Definition no_stack (e : Error) : option string := None.

Definition nowhere (action : string) (store : nat) (options : PlaidOptions) : Cli unit :=
  mret tt.

(** The world a process leaves behind after it linked [item_A] into the
    store at the default path. *)
Definition world_with_A : World :=
  world (saveItem item_A
           {| this := {| items := []; filePath := DEFAULT_STORE_PATH |};
              world := world_at ticking empty_disk |}).2.

Definition for_item (id : string) : PlaidOptions :=
  {| opt_itemId := Some id; opt_userId := None; opt_full := None; opt_verbose := None |}.

Definition for_user (user : string) : PlaidOptions :=
  {| opt_itemId := None; opt_userId := Some user; opt_full := None; opt_verbose := None |}.

(** A process whose default store is the one at [store_file], holding
    [item_A], on a disk that refuses writes. *)
Definition process_of_A : Process :=
  {| heap := [ {| items := [("item-A", item_A)]; filePath := store_file |} ];
     defaultFileStore := Some 0;
     os := world_at ticking {| nodes := ∅; readonly := true |} |}.

(** The store that holds [item_A], on a disk that refuses writes. *)
Definition store_of_A_readonly : Sys :=
  {| this := {| items := [("item-A", item_A)]; filePath := store_file |};
     world := world_at ticking {| nodes := ∅; readonly := true |} |}.

(** An update that tries to rename the record. *)
Definition renaming (id : string) : Partial_PlaidItem :=
  {| p_itemId := Some id; p_accessToken := None; p_institutionId := None;
     p_institutionName := None; p_userId := None; p_status := None;
     p_syncCursor := None; p_lastSyncAt := None; p_createdAt := None;
     p_updatedAt := None |}.

(** The stores a process constructs from the default path, over a disk
    without the file and over [world_with_A]. *)
Definition default_store_empty : FilePlaidItemStore :=
  {| items := []; filePath := DEFAULT_STORE_PATH |}.

Definition default_store_of_A : FilePlaidItemStore :=
  {| items := [("item-A", item_A)]; filePath := DEFAULT_STORE_PATH |}.

(** What [client] answers in the course of [plaid link]. *)
Definition sandbox_token : LinkMore.SandboxPublicToken :=
  {| LinkMore.publicToken := "public-sandbox-0123456789abcdef";
     LinkMore.sandbox_requestId := "req-0" |}.

Definition exchanged : Link.ExchangePublicTokenResult :=
  {| Link.exchanged_accessToken := "access-sandbox-1";
     Link.exchanged_itemId := "item-A";
     Link.exchanged_requestId := "req-2" |}.

Definition item_info : LinkMore.ItemInfo :=
  {| LinkMore.itemId := "item-A";
     LinkMore.institutionId := Some "ins_109508";
     LinkMore.availableProducts := ["balance"];
     LinkMore.billedProducts := ["transactions"];
     LinkMore.consentExpirationTime := None;
     LinkMore.updateType := "background";
     LinkMore.item_error := None |}.

Definition one_account (accessToken : string) : Result (list Account) :=
  Ok [checking].

(** An account listing that the provider refuses. *)
Definition rate_limited (accessToken : string) : Result (list Account) :=
  Err (SystemError "ERR_BAD_REQUEST" "Request failed with status code 429").

End Scenario.


(** * Properties *)

(** ** [Map] *)

Section MapFacts.
Context {V : Type}.
Implicit Types (m : JsMap V) (k : string) (v : V).

Lemma Map_get_None k m : Map_get k m = None <-> k ∉ Map_keys m.
Proof.
  induction m as [|[k' v'] m IH]; simpl.
  - split; [intros _; apply not_elem_of_nil | done].
  - rewrite not_elem_of_cons. destruct (String.eqb_spec k' k) as [->|Hne].
    + split; [done | by intros [? _]].
    + rewrite IH. split; [by intros ?; split; [congruence|] | by intros [_ ?]].
Qed.

Lemma Map_get_set_eq k v m : Map_get k (Map_set k v m) = Some v.
Proof.
  induction m as [|[k' v'] m IH]; simpl.
  - by rewrite String.eqb_refl.
  - destruct (String.eqb_spec k' k) as [->|Hne]; simpl.
    + by rewrite String.eqb_refl.
    + by destruct (String.eqb_spec k' k).
Qed.

Lemma Map_get_set_ne k k' v m : k <> k' -> Map_get k' (Map_set k v m) = Map_get k' m.
Proof.
  intros Hne. induction m as [|[k0 v0] m IH]; simpl.
  - by destruct (String.eqb_spec k k').
  - destruct (String.eqb_spec k0 k) as [->|Hne0]; simpl.
    + by destruct (String.eqb_spec k k').
    + by rewrite IH.
Qed.

Lemma Map_get_delete_eq k m : Map_get k (Map_delete k m) = None.
Proof.
  induction m as [|[k' v'] m IH]; simpl; [done|].
  destruct (String.eqb_spec k' k) as [->|Hne]; simpl; [done|].
  by destruct (String.eqb_spec k' k).
Qed.

Lemma Map_get_delete_ne k k' m : k <> k' -> Map_get k' (Map_delete k m) = Map_get k' m.
Proof.
  intros Hne. induction m as [|[k0 v0] m IH]; simpl; [done|].
  destruct (String.eqb_spec k0 k) as [->|Hne0]; simpl.
  - by destruct (String.eqb_spec k k').
  - by rewrite IH.
Qed.

Lemma Map_delete_absent k m : Map_get k m = None -> Map_delete k m = m.
Proof.
  induction m as [|[k' v'] m IH]; simpl; [done|].
  destruct (String.eqb_spec k' k); [done|]. intros H. by rewrite IH.
Qed.

Lemma Map_delete_idemp k m : Map_delete k (Map_delete k m) = Map_delete k m.
Proof. apply Map_delete_absent, Map_get_delete_eq. Qed.

Lemma Map_set_fresh k v m : k ∉ Map_keys m -> Map_set k v m = m ++ [(k, v)].
Proof.
  induction m as [|[k' v'] m IH]; simpl; [done|].
  rewrite not_elem_of_cons. intros [Hne Hm].
  destruct (String.eqb_spec k' k); [congruence|]. by rewrite IH.
Qed.

Lemma Map_keys_set k v m :
  Map_keys (Map_set k v m) =
  match Map_get k m with
  | Some _ => Map_keys m
  | None => Map_keys m ++ [k]
  end.
Proof.
  induction m as [|[k' v'] m IH]; simpl; [done|].
  destruct (String.eqb_spec k' k) as [->|Hne]; simpl; [done|].
  rewrite IH. by destruct (Map_get k m).
Qed.

Lemma Map_set_NoDup k v m : NoDup (Map_keys m) -> NoDup (Map_keys (Map_set k v m)).
Proof.
  intros Hm. rewrite Map_keys_set. destruct (Map_get k m) eqn:Hget; [done|].
  apply NoDup_app. split_and!; [done| |apply NoDup_singleton].
  intros x Hx ->%list_elem_of_singleton. by apply Map_get_None in Hget.
Qed.

Lemma Map_keys_delete k k' m : k' ∈ Map_keys (Map_delete k m) -> k' ∈ Map_keys m.
Proof.
  induction m as [|[k0 v0] m IH]; simpl; [done|].
  destruct (String.eqb k0 k); simpl; rewrite ?elem_of_cons; tauto.
Qed.

Lemma Map_delete_NoDup k m : NoDup (Map_keys m) -> NoDup (Map_keys (Map_delete k m)).
Proof.
  induction m as [|[k' v'] m IH]; simpl; [done|].
  rewrite NoDup_cons. intros [Hk Hm].
  destruct (String.eqb k' k); simpl; [by apply IH|].
  apply NoDup_cons. split; [|by apply IH].
  intros Hin. by apply Hk, (Map_keys_delete k).
Qed.

Lemma fold_Map_set_NoDup (es : list (string * V)) m :
  NoDup (Map_keys m) ->
  NoDup (Map_keys (fold_left (fun m kv => Map_set kv.1 kv.2 m) es m)).
Proof.
  revert m. induction es as [|[k v] es IH]; intros m Hm; simpl; [done|].
  by apply IH, Map_set_NoDup.
Qed.

Lemma new_Map_NoDup (es : list (string * V)) : NoDup (Map_keys (new_Map es)).
Proof. apply fold_Map_set_NoDup, NoDup_nil_2. Qed.

Lemma fold_Map_set_fresh (es : list (string * V)) m :
  NoDup (Map_keys (m ++ es)) ->
  fold_left (fun m kv => Map_set kv.1 kv.2 m) es m = m ++ es.
Proof.
  revert m. induction es as [|[k v] es IH]; intros m Hnd; simpl.
  - by rewrite app_nil_r.
  - assert (k ∉ Map_keys m) as Hk.
    { unfold Map_keys in *. rewrite fmap_app, fmap_cons in Hnd.
      apply NoDup_app in Hnd as (_ & Hdisj & _). intros Hin.
      apply (Hdisj _ Hin). simpl. left. }
    rewrite (Map_set_fresh _ _ _ Hk). rewrite IH.
    + by rewrite <- app_assoc.
    + by rewrite <- app_assoc.
Qed.

(** A list of entries with distinct keys is its own [Map]. *)
Lemma new_Map_distinct (es : list (string * V)) : NoDup (Map_keys es) -> new_Map es = es.
Proof. intros Hnd. unfold new_Map. by rewrite fold_Map_set_fresh. Qed.

End MapFacts.

(** ** Objects *)

Section ObjectFacts.
Context {V : Type}.
Implicit Types (o : JsObject V) (k : string) (v : V).

Lemma insert_index_Permutation n k v o : insert_index n k v o ≡ₚ (k, v) :: o.
Proof.
  induction o as [|[k' v'] o IH]; simpl; [done|].
  destruct (array_index k') as [n'|]; [|done].
  destruct (n' <? n)%N; [|done].
  rewrite IH. apply Permutation_swap.
Qed.

(** Defining a key the object lacks adds one property and keeps the others. *)
Lemma define_property_fresh k v o :
  k ∉ Map_keys o -> define_property k v o ≡ₚ (k, v) :: o.
Proof.
  intros Hk%Map_get_None. unfold define_property. rewrite Hk.
  destruct (array_index k) as [n|].
  - apply insert_index_Permutation.
  - by rewrite Permutation_app_comm.
Qed.

Lemma fold_define_property_Permutation (es : list (string * V)) o :
  NoDup (Map_keys (o ++ es)) ->
  fold_left (fun o kv => define_property kv.1 kv.2 o) es o ≡ₚ o ++ es.
Proof.
  revert o. induction es as [|[k v] es IH]; intros o Hnd; simpl.
  - by rewrite app_nil_r.
  - assert (k ∉ Map_keys o) as Hk.
    { unfold Map_keys in *. rewrite fmap_app, fmap_cons in Hnd.
      apply NoDup_app in Hnd as (_ & Hdisj & _). intros Hin.
      apply (Hdisj _ Hin). simpl. left. }
    pose proof (define_property_fresh k v o Hk) as Hdef.
    assert (define_property k v o ++ es ≡ₚ o ++ (k, v) :: es) as Hperm.
    { rewrite Hdef. simpl. by rewrite Permutation_middle. }
    rewrite IH; [done|].
    unfold Map_keys in *. by rewrite Hperm.
Qed.

(** An object made from entries with distinct keys has exactly those
    entries, in the object's own order. *)
Lemma Object_fromEntries_Permutation (es : list (string * V)) :
  NoDup (Map_keys es) -> Object_fromEntries es ≡ₚ es.
Proof. intros Hnd. unfold Object_fromEntries. by rewrite fold_define_property_Permutation. Qed.

(** [new Map(Object.entries(Object.fromEntries(m)))] has the entries of [m]. *)
Lemma new_Map_fromEntries (m : JsMap V) :
  NoDup (Map_keys m) -> new_Map (Object_fromEntries m) ≡ₚ m.
Proof.
  intros Hnd. pose proof (Object_fromEntries_Permutation m Hnd) as Hperm.
  rewrite new_Map_distinct; [done|].
  unfold Map_keys in *. by rewrite Hperm.
Qed.

End ObjectFacts.

(** ** The store's private methods *)

(** Unfolds the monad's plumbing. *)
Ltac step :=
  unfold mbind, M_bind, mret, M_ret, gets, modify, throw, try_catch,
    in_world, returned, set_items; simpl.

Section StoreFacts.
Context {host : Host}.
Implicit Types (s : Sys) (w : World) (item : PlaidItem).

(** [save] never throws, whatever the disk does, and touches neither the
    object nor the clock. *)
Lemma save_returns s :
  exists w, save s = (Ok tt, {| this := this s; world := w |})
    /\ clock w = clock (world s) /\ ticks w = ticks (world s)
    /\ readonly (disk w) = readonly (disk (world s)).
Proof.
  destruct s as [[m p] w]. unfold save. step.
  unfold existsSync, mkdirSync, writeFileSync, console_error. step.
  repeat (case_match; simplify_eq/=); eauto 10.
Qed.

(** What the disk model does with directories and files. *)
Lemma make_dirs_lookup dirs (n : gmap string Node) k :
  make_dirs dirs n !! k = if bool_decide (k ∈ dirs) then Some Dir else n !! k.
Proof.
  induction dirs as [|dir dirs IH]; simpl; [done|].
  destruct (decide (dir = k)) as [->|Hne].
  - rewrite lookup_insert_eq. by rewrite bool_decide_eq_true_2 by left.
  - rewrite lookup_insert_ne by done. rewrite IH.
    destruct (decide (k ∈ dirs)) as [Hin|Hout].
    + rewrite !bool_decide_eq_true_2; [done|by right|done].
    + rewrite !bool_decide_eq_false_2; [done| |done].
      by intros [?|?]%elem_of_cons.
Qed.

Lemma lineage_self dir : dir ∈ lineage dir.
Proof. unfold lineage. destruct (String.length dir); left. Qed.

Lemma existsb_is_file_false (n : gmap string Node) dirs :
  existsb (is_file n) dirs = false <-> forall k, k ∈ dirs -> is_file n k = false.
Proof.
  induction dirs as [|dir dirs IH]; simpl.
  - split; [by intros _ k ?%elem_of_nil|done].
  - rewrite orb_false_iff, IH. split.
    + intros [Hdir Hdirs] k [->|Hk]%elem_of_cons; [done|by apply Hdirs].
    + intros Hall. split; [apply Hall; by left|].
      intros k Hk. apply Hall. by right.
Qed.

Lemma is_file_make_dirs dirs (n : gmap string Node) k :
  is_file (make_dirs dirs n) k = if bool_decide (k ∈ dirs) then false else is_file n k.
Proof. unfold is_file. rewrite make_dirs_lookup. by case_bool_decide. Qed.

Lemma is_file_insert (n : gmap string Node) path node k :
  k <> path -> is_file (<[path:=node]> n) k = is_file n k.
Proof. intros Hne. unfold is_file. by rewrite lookup_insert_ne. Qed.

Lemma save_disk s :
  disk (world (save s).2)
  = after_write (filePath (this s)) (JSON_stringify (Object_fromEntries (items (this s))))
      (after_mkdir (filePath (this s)) (disk (world s))).
Proof.
  destruct s as [[m p] [[n ro] c t out]]. simpl. unfold save. step.
  unfold existsSync, mkdirSync, writeFileSync, console_error, set_nodes. step.
  unfold after_write, after_mkdir, lets_write. simpl.
  destruct (n !! dirname p) as [[d|]|] eqn:Hd; simpl; rewrite ?Hd; simpl.
  - by destruct (existsb _ _).
  - destruct (existsb _ _); simpl; [done|].
    destruct (n !! p) as [[d|]|]; simpl; by destruct ro.
  - destruct (existsb (is_file n) _) eqn:Hblocked; simpl.
    { by rewrite ?Hblocked, ?Hd. }
    destruct ro; simpl.
    { rewrite ?Hblocked, ?Hd. simpl. by rewrite ?andb_false_r. }
    set (n1 := make_dirs _ n).
    destruct (existsb (is_file n1) _); simpl; [done|].
    destruct (n1 !! dirname p) as [[d|]|]; simpl; try done.
    by destruct (n1 !! p) as [[d|]|].
Qed.

(** On a disk that takes the write, [save] leaves the file holding the
    whole mapping, and the disk takes the next write too. *)
Lemma save_written s :
  can_write (filePath (this s)) (disk (world s)) = true ->
  exists w, save s = (Ok tt, {| this := this s; world := w |})
    /\ nodes (disk w) !! filePath (this s)
       = Some (File (JSON_stringify (Object_fromEntries (items (this s)))))
    /\ can_write (filePath (this s)) (disk w) = true
    /\ console w = console (world s).
Proof.
  destruct s as [[m p] [[n ro] c t out]]. unfold can_write. simpl.
  intros (((Hro & Hout)%andb_prop & Hblocked)%andb_prop & Hpath)%andb_prop.
  apply negb_true_iff in Hro as ->.
  apply bool_decide_eq_true in Hout. apply negb_true_iff in Hblocked.
  pose proof (lineage_self (dirname p)) as Hself.
  assert (dirname p <> p) as Hdir
    by (intros Heq; apply Hout; rewrite <- Heq at 1; exact Hself).
  pose proof (proj1 (existsb_is_file_false _ _) Hblocked) as Hfiles.
  assert (forall data' (n' : gmap string Node),
            (forall k, k ∈ lineage (dirname p) -> is_file n' k = false) ->
            existsb (is_file (<[p:=File data']> n')) (lineage (dirname p)) = false)
    as Hafter.
  { intros data' n' Hn'. apply existsb_is_file_false. intros k Hk.
    rewrite is_file_insert by (by intros ->). by apply Hn'. }
  unfold save. step. unfold existsSync, mkdirSync, writeFileSync. step.
  destruct (n !! dirname p) as [[d|]|] eqn:Hd.
  - specialize (Hfiles _ Hself). unfold is_file in Hfiles. by rewrite Hd in Hfiles.
  - rewrite bool_decide_eq_true_2 by eauto. simpl. rewrite Hblocked, Hd.
    destruct (n !! p) as [[d|]|] eqn:Hp; [|done|];
      (eexists; split_and!; [done|..]; simpl;
        [by rewrite lookup_insert_eq|..|done];
        rewrite lookup_insert_eq, Hafter by done; simpl;
        by rewrite bool_decide_eq_true_2).
  - rewrite bool_decide_eq_false_2 by (by intros [? ?]). simpl.
    rewrite Hd, Hblocked. simpl.
    set (n1 := make_dirs _ n).
    assert (forall k, k ∈ lineage (dirname p) -> is_file n1 k = false) as Hfiles1.
    { intros k Hk. unfold n1. rewrite is_file_make_dirs.
      by rewrite bool_decide_eq_true_2. }
    rewrite (proj2 (existsb_is_file_false _ _) Hfiles1).
    assert (n1 !! dirname p = Some Dir) as ->
      by (unfold n1; rewrite make_dirs_lookup; by rewrite bool_decide_eq_true_2).
    assert (n1 !! p = n !! p) as ->
      by (unfold n1; rewrite make_dirs_lookup; by rewrite bool_decide_eq_false_2).
    destruct (n !! p) as [[d|]|] eqn:Hp; [|done|];
      (eexists; split_and!; [done|..]; simpl;
        [by rewrite lookup_insert_eq|..|done];
        rewrite lookup_insert_eq, Hafter by done; simpl;
        by rewrite bool_decide_eq_true_2).
Qed.

(** Writing the same mapping a second time leaves the disk as the first
    write left it, whether the writes succeed or fail. *)
Lemma save_twice_disk s :
  disk (world (save (save s).2).2) = disk (world (save s).2).
Proof.
  pose proof (save_disk (save s).2) as H2. pose proof (save_disk s) as H1.
  destruct (save_returns s) as (w1 & Hs1 & _).
  rewrite Hs1 in H1, H2 |- *. simpl in *. rewrite H2, H1. clear.
  set (p := filePath (this s)). set (data := JSON_stringify _).
  set (d := disk (world s)). clearbody data p d.
  assert (forall d0, nodes d0 !! dirname p <> None -> after_mkdir p d0 = d0) as Hmade.
  { intros d0 Hd. unfold after_mkdir. by destruct (nodes d0 !! dirname p). }
  assert (forall d0, after_mkdir p (after_mkdir p d0) = after_mkdir p d0) as Hmkdir.
  { intros d0. destruct (nodes d0 !! dirname p) eqn:Hd.
    { rewrite (Hmade d0) by (by rewrite Hd). apply Hmade. by rewrite Hd. }
    assert (after_mkdir p d0 = d0
            \/ nodes (after_mkdir p d0) !! dirname p = Some Dir) as [Hsame|Hdir].
    { unfold after_mkdir. rewrite Hd.
      destruct (existsb _ _ || _); [by left|right]. simpl.
      rewrite make_dirs_lookup.
      by rewrite bool_decide_eq_true_2 by apply lineage_self. }
    - by rewrite !Hsame.
    - apply Hmade. by rewrite Hdir. }
  set (d1 := after_mkdir p d) in *.
  assert (after_mkdir p d1 = d1) as Hd1 by apply Hmkdir.
  clearbody d1. clear Hmkdir d.
  destruct (lets_write p d1) eqn:Hlets.
  2:{ assert (after_write p data d1 = d1) as -> by (unfold after_write; by rewrite Hlets).
      rewrite Hd1. unfold after_write. by rewrite Hlets. }
  pose proof Hlets as Hlets'. unfold lets_write in Hlets.
  apply andb_prop in Hlets as [[[Hblocked Hparent]%andb_prop Htarget]%andb_prop Hro].
  destruct (nodes d1 !! dirname p) as [[?|]|] eqn:Hd; try done.
  assert (dirname p <> p) as Hne.
  { intros Heq. rewrite Heq in Hd. by rewrite Hd in Htarget. }
  set (d2 := {| nodes := <[p:=File data]> (nodes d1); readonly := readonly d1 |}).
  assert (after_write p data d1 = d2) as ->
    by (unfold after_write; by rewrite Hlets').
  assert (after_mkdir p d2 = d2) as ->.
  { apply Hmade. simpl. by rewrite lookup_insert_ne, Hd. }
  unfold after_write. destruct (lets_write p d2); [|done].
  unfold d2. simpl. by rewrite insert_insert_eq.
Qed.

(** The constructor never throws and leaves the world as it found it. *)
Lemma constructor_returns fp w :
  exists m, constructor fp w
            = (Ok {| items := m; filePath := default DEFAULT_STORE_PATH fp |}, w)
    /\ NoDup (Map_keys m).
Proof.
  destruct w as [[n ro] c t out]. unfold constructor, load. step.
  unfold existsSync, readFileSync, Object_entries. step.
  repeat (case_match; simplify_eq/=); eexists; (split; [done|]);
    apply new_Map_NoDup.
Qed.

(** What the constructor finds in a file that holds a record. *)
Lemma constructor_reads p w data o :
  nodes (disk w) !! p = Some (File data) ->
  JSON_parse data = Ok (JsonRecord o) ->
  constructor (Some p) w = (Ok {| items := new_Map o; filePath := p |}, w).
Proof.
  destruct w as [[n ro] c t out]. simpl. intros Hp Hparse.
  unfold constructor, load. step. unfold existsSync, readFileSync. step.
  rewrite bool_decide_eq_true_2 by eauto. simpl. by rewrite Hp, Hparse.
Qed.

(** The constructor looks at the disk and at nothing else. *)
Lemma constructor_disk fp w w' :
  disk w = disk w' -> (constructor fp w).1 = (constructor fp w').1.
Proof.
  destruct w as [d c t out], w' as [d' c' t' out']. simpl. intros <-.
  unfold constructor, load. step. unfold existsSync, readFileSync. step.
  repeat (case_match; simplify_eq/=); done.
Qed.

(** ** The public methods *)

Lemma saveItem_returns s item :
  exists w, saveItem item s
            = (Ok tt, {| this := {| items := Map_set (itemId item) item (items (this s));
                                    filePath := filePath (this s) |};
                         world := w |})
    /\ clock w = clock (world s) /\ ticks w = ticks (world s).
Proof.
  unfold saveItem. step.
  destruct (save_returns
    {| this := {| items := Map_set (itemId item) item (items (this s));
                  filePath := filePath (this s) |}; world := world s |})
    as (w & -> & Hc & Ht & _).
  eauto.
Qed.

(** On an item the store holds, [updateItem] reads the clock once and
    stores the merged record under the same key. *)
Lemma updateItem_existing s id updates existing :
  Map_get id (items (this s)) = Some existing ->
  exists w, updateItem id updates s
            = (Ok tt,
               {| this := {| items :=
                               Map_set id
                                 (spread_updates existing updates
                                    (clock (world s) (ticks (world s))))
                                 (items (this s));
                             filePath := filePath (this s) |};
                  world := w |})
    /\ clock w = clock (world s) /\ ticks w = S (ticks (world s)).
Proof.
  intros Hget. unfold updateItem. step. rewrite Hget. step.
  unfold Date_toISOString. simpl.
  match goal with |- context [save ?s0] =>
    destruct (save_returns s0) as (w & -> & Hc & Ht & _) end.
  eauto.
Qed.

(** On an item the store lacks, [updateItem] does nothing at all. *)
Lemma updateItem_missing s id updates :
  Map_get id (items (this s)) = None -> updateItem id updates s = (Ok tt, s).
Proof. intros Hget. unfold updateItem. step. by rewrite Hget. Qed.

Lemma deleteItem_returns s id :
  exists w, deleteItem id s
            = (Ok tt, {| this := {| items := Map_delete id (items (this s));
                                    filePath := filePath (this s) |};
                         world := w |})
    /\ clock w = clock (world s) /\ ticks w = ticks (world s).
Proof.
  unfold deleteItem. step.
  match goal with |- context [save ?s0] =>
    destruct (save_returns s0) as (w & -> & Hc & Ht & _) end.
  eauto.
Qed.

Lemma updateItem_others s id updates id' :
  id <> id' ->
  Map_get id' (items (this (updateItem id updates s).2)) = Map_get id' (items (this s)).
Proof.
  intros Hne. destruct (Map_get id (items (this s))) as [existing|] eqn:Hget.
  - destruct (updateItem_existing s id updates existing Hget) as (w & -> & _).
    simpl. by rewrite Map_get_set_ne.
  - by rewrite updateItem_missing.
Qed.

(** A call about one [itemId] leaves the record of every other one as it
    was. *)
Lemma call_others c s id' :
  subject c <> id' -> (getItem id' (call c s).2).1 = (getItem id' s).1.
Proof.
  intros Hne. unfold getItem, gets. simpl. f_equal.
  destruct c as [item|id updates|id|id cursor|id status]; simpl in *.
  - destruct (saveItem_returns s item) as (w & -> & _). simpl.
    by rewrite Map_get_set_ne.
  - by apply updateItem_others.
  - destruct (deleteItem_returns s id) as (w & -> & _). simpl.
    by rewrite Map_get_delete_ne.
  - unfold updateSyncCursor. step. unfold Date_toISOString. step.
    by rewrite updateItem_others.
  - by apply updateItem_others.
Qed.

End StoreFacts.

(** ** The store's contract *)

(** Runs the [updateItem] in the goal on the record [Hget] finds, and
    reads the result back. *)
Ltac updated Hget :=
  match goal with
  | |- context [updateItem ?i ?u ?s0] =>
      destruct (updateItem_existing s0 i u _ Hget) as (? & -> & _)
  end;
  do 2 eexists; split; [done|]; simpl; rewrite Map_get_set_eq.

Section StoreContract.
Context {host : Host}.
Implicit Types (s : Sys) (item : PlaidItem).

(** C1. After [saveItem(item)], [getItem(item.itemId)] returns a record
    equal to [item] in every field; this holds whether or not the write
    to the file succeeded. *)
Theorem saveItem_then_getItem s item :
  exists s', saveItem item s = (Ok tt, s')
    /\ getItem (itemId item) s' = (Ok (Some item), s').
Proof.
  destruct (saveItem_returns s item) as (w & Hsave & _).
  eexists. split; [exact Hsave|].
  unfold getItem, gets. simpl. by rewrite Map_get_set_eq.
Qed.

(** C3, as the code has it. On an item the store holds,
    [updateSyncCursor(itemId, cursor)] followed by [getItem(itemId)]
    returns a record whose [syncCursor] is the new cursor, whose
    [lastSyncAt] is the reading of the clock the call took, and whose
    [createdAt] is the one it had. The new [lastSyncAt] is strictly
    greater than the previous one when that reading is. *)
Theorem updateSyncCursor_then_getItem s id cursor existing :
  getItem id s = (Ok (Some existing), s) ->
  let reading := clock (world s) (ticks (world s)) in
  exists s' item',
    updateSyncCursor id cursor s = (Ok tt, s')
    /\ getItem id s' = (Ok (Some item'), s')
    /\ syncCursor item' = Some cursor
    /\ lastSyncAt item' = Some reading
    /\ createdAt item' = createdAt existing
    /\ (forall previous,
          lastSyncAt existing = Some previous ->
          String.ltb previous reading = true ->
          exists latest, lastSyncAt item' = Some latest
                         /\ String.ltb previous latest = true).
Proof.
  intros Hget reading. unfold getItem, gets in Hget. injection Hget as Hget.
  unfold updateSyncCursor. step. unfold Date_toISOString. step.
  unfold getItem, gets. updated Hget.
  split_and!; try done. intros previous _ Hlt. by exists reading.
Qed.

(** C4, as the code has it. On an item the store holds, [updateItem],
    [updateSyncCursor] and [updateStatus] leave a record whose
    [updatedAt] is the reading of the clock the operation took for it,
    and whose [createdAt] is the one it had unless the partial fields of
    [updateItem] supply another; [saveItem] stores the caller's record as
    it is given, its two timestamps included. *)
Theorem mutations_and_timestamps s id existing :
  getItem id s = (Ok (Some existing), s) ->
  (forall updates, exists s' item',
      updateItem id updates s = (Ok tt, s')
      /\ getItem id s' = (Ok (Some item'), s')
      /\ updatedAt item' = clock (world s) (ticks (world s))
      /\ createdAt item' = default (createdAt existing) (p_createdAt updates))
  /\ (forall cursor, exists s' item',
      updateSyncCursor id cursor s = (Ok tt, s')
      /\ getItem id s' = (Ok (Some item'), s')
      /\ updatedAt item' = clock (world s) (S (ticks (world s)))
      /\ createdAt item' = createdAt existing)
  /\ (forall status, exists s' item',
      updateStatus id status s = (Ok tt, s')
      /\ getItem id s' = (Ok (Some item'), s')
      /\ updatedAt item' = clock (world s) (ticks (world s))
      /\ createdAt item' = createdAt existing)
  /\ (forall item, itemId item = id -> exists s',
      saveItem item s = (Ok tt, s')
      /\ getItem id s' = (Ok (Some item), s')).
Proof.
  unfold getItem, gets. intros [= Hget]. split_and!.
  - intros updates. by updated Hget.
  - intros cursor. unfold updateSyncCursor. step. unfold Date_toISOString. step.
    by updated Hget.
  - intros status. unfold updateStatus. by updated Hget.
  - intros item <-. destruct (saveItem_returns s item) as (w & -> & _).
    eexists. split; [done|]. unfold getItem, gets. simpl. by rewrite Map_get_set_eq.
Qed.

(** C5, as the code has it. On an item the store holds,
    [updateSyncCursor] and [updateStatus] leave the [accessToken] it had,
    and so does [updateItem] unless its partial fields supply another;
    [saveItem] under the same [itemId] replaces the record, and with it
    the [accessToken], by the caller's. *)
Theorem mutations_and_accessToken s id existing :
  getItem id s = (Ok (Some existing), s) ->
  (forall updates, exists s' item',
      updateItem id updates s = (Ok tt, s')
      /\ getItem id s' = (Ok (Some item'), s')
      /\ accessToken item' = default (accessToken existing) (p_accessToken updates))
  /\ (forall cursor, exists s' item',
      updateSyncCursor id cursor s = (Ok tt, s')
      /\ getItem id s' = (Ok (Some item'), s')
      /\ accessToken item' = accessToken existing)
  /\ (forall status, exists s' item',
      updateStatus id status s = (Ok tt, s')
      /\ getItem id s' = (Ok (Some item'), s')
      /\ accessToken item' = accessToken existing)
  /\ (forall item, itemId item = id -> exists s' item',
      saveItem item s = (Ok tt, s')
      /\ getItem id s' = (Ok (Some item'), s')
      /\ accessToken item' = accessToken item).
Proof.
  unfold getItem, gets. intros [= Hget]. split_and!.
  - intros updates. by updated Hget.
  - intros cursor. unfold updateSyncCursor. step. unfold Date_toISOString. step.
    by updated Hget.
  - intros status. unfold updateStatus. by updated Hget.
  - intros item <-. destruct (saveItem_returns s item) as (w & -> & _).
    do 2 eexists. split; [done|]. unfold getItem, gets. simpl.
    by rewrite Map_get_set_eq.
Qed.

(** C6. On an [itemId] the store does not hold, [updateItem] returns
    without an error and changes nothing, and so do [updateStatus] and
    [updateSyncCursor]: the mapping, the file path and the disk are as
    they were, and nothing is logged. ([updateSyncCursor] has read the
    clock for the [lastSyncAt] it did not store.) *)
Theorem updateItem_missing_is_noop s id :
  getItem id s = (Ok None, s) ->
  (forall updates, updateItem id updates s = (Ok tt, s))
  /\ (forall status, updateStatus id status s = (Ok tt, s))
  /\ (forall cursor, exists s',
        updateSyncCursor id cursor s = (Ok tt, s')
        /\ this s' = this s
        /\ disk (world s') = disk (world s)
        /\ console (world s') = console (world s)).
Proof.
  unfold getItem, gets. intros [= Hget]. split_and!.
  - intros updates. by apply updateItem_missing.
  - intros status. by apply updateItem_missing.
  - intros cursor. unfold updateSyncCursor. step. unfold Date_toISOString. simpl.
    rewrite updateItem_missing by done. eauto.
Qed.

(** C8. [deleteItem(itemId)] returns without an error on every store,
    whether or not it holds the id, and [getItem(itemId)] then returns
    absent; a second [deleteItem(itemId)] returns without an error too and
    leaves the mapping and the disk as the first one left them. Deleting
    an id the store does not hold leaves the mapping as it was. *)
Theorem deleteItem_then_getItem s id :
  exists s1 s2,
    deleteItem id s = (Ok tt, s1)
    /\ getItem id s1 = (Ok None, s1)
    /\ deleteItem id s1 = (Ok tt, s2)
    /\ this s2 = this s1
    /\ disk (world s2) = disk (world s1)
    /\ (getItem id s = (Ok None, s) -> this s1 = this s).
Proof.
  set (a := {| this := {| items := Map_delete id (items (this s));
                          filePath := filePath (this s) |};
               world := world s |}).
  assert (deleteItem id s = save a) as -> by done.
  destruct (save_returns a) as (w1 & Hsave1 & _).
  pose proof (save_twice_disk a) as Htwice.
  rewrite Hsave1 in Htwice |- *.
  set (s1 := {| this := this a; world := w1 |}).
  change (disk (world (save s1).2) = disk (world s1)) in Htwice.
  assert (deleteItem id s1 = save s1) as Hdel.
  { unfold deleteItem. step. by rewrite Map_delete_idemp. }
  destruct (save_returns s1) as (w2 & Hsave2 & _).
  rewrite Hsave2 in Htwice. simpl in Htwice.
  exists s1, {| this := this s1; world := w2 |}. split_and!; try done.
  - unfold getItem, gets. simpl. by rewrite Map_get_delete_eq.
  - by rewrite Hdel.
  - unfold getItem, gets. intros [= Hget]. simpl.
    rewrite Map_delete_absent by done. by destruct s as [[m p] w].
Qed.

End StoreContract.

(** ** The store against the specification's mapping *)

Section Refinement.
Context {host : Host}.
Implicit Types (s : Sys) (m : JsMap PlaidItem) (c : Mutation) (cs : list Mutation).

Lemma mapping_of_lookup m k : mapping_of m !! k = Map_get k m.
Proof.
  unfold mapping_of. induction m as [|[k' v] m IH]; simpl; [done|].
  destruct (String.eqb_spec k' k) as [->|Hne].
  - by rewrite lookup_insert_eq.
  - by rewrite lookup_insert_ne.
Qed.

Lemma mapping_of_set m k v : mapping_of (Map_set k v m) = <[k:=v]> (mapping_of m).
Proof.
  apply map_eq. intros k'. rewrite mapping_of_lookup.
  destruct (decide (k = k')) as [->|Hne].
  - by rewrite Map_get_set_eq, lookup_insert_eq.
  - by rewrite Map_get_set_ne, lookup_insert_ne, mapping_of_lookup.
Qed.

Lemma mapping_of_delete m k : mapping_of (Map_delete k m) = delete k (mapping_of m).
Proof.
  apply map_eq. intros k'. rewrite mapping_of_lookup.
  destruct (decide (k = k')) as [->|Hne].
  - by rewrite Map_get_delete_eq, lookup_delete_eq.
  - by rewrite Map_get_delete_ne, lookup_delete_ne, mapping_of_lookup.
Qed.

(** A [Map] that holds each key once lists the records of its mapping. *)
Lemma mapping_of_values m :
  NoDup (Map_keys m) -> Map_values m ≡ₚ (map_to_list (mapping_of m)).*2.
Proof.
  intros Hnd. unfold Map_values, mapping_of.
  by rewrite (map_to_list_to_map m Hnd).
Qed.

Lemma updateItem_expected s id updates :
  exists s', updateItem id updates s = (Ok tt, s')
    /\ clock (world s') = clock (world s)
    /\ (mapping_of (items (this s')), ticks (world s'))
       = expect_update (clock (world s)) id updates
           (mapping_of (items (this s)), ticks (world s)).
Proof.
  unfold expect_update. simpl. rewrite mapping_of_lookup.
  destruct (Map_get id (items (this s))) as [existing|] eqn:Hget.
  - destruct (updateItem_existing s id updates existing Hget) as (w & -> & Hc & Ht).
    eexists. split_and!; [done|done|]. simpl. by rewrite mapping_of_set, Ht.
  - rewrite updateItem_missing by done. by eexists.
Qed.

(** Each call changes the store's mapping as the specification says. *)
Lemma call_expected c s :
  exists s', call c s = (Ok tt, s')
    /\ clock (world s') = clock (world s)
    /\ (mapping_of (items (this s')), ticks (world s'))
       = expect (clock (world s)) c (mapping_of (items (this s)), ticks (world s)).
Proof.
  destruct c as [item|id updates|id|id cursor|id status]; simpl.
  - destruct (saveItem_returns s item) as (w & -> & Hc & Ht).
    eexists. split_and!; [done|done|]. simpl. by rewrite mapping_of_set, Ht.
  - apply updateItem_expected.
  - destruct (deleteItem_returns s id) as (w & -> & Hc & Ht).
    eexists. split_and!; [done|done|]. simpl. by rewrite mapping_of_delete, Ht.
  - unfold updateSyncCursor. step. unfold Date_toISOString. step.
    match goal with |- context [updateItem ?i ?u ?s0] =>
      destruct (updateItem_expected s0 i u) as (s' & -> & Hc & Hst) end.
    eexists. split_and!; [done|done|]. exact Hst.
  - apply updateItem_expected.
Qed.

Lemma calls_expected cs s :
  exists s', calls cs s = (Ok tt, s')
    /\ clock (world s') = clock (world s)
    /\ (mapping_of (items (this s')), ticks (world s'))
       = expect_all (clock (world s)) cs
           (mapping_of (items (this s)), ticks (world s)).
Proof.
  revert s. induction cs as [|c cs IH]; intros s; simpl.
  - by exists s.
  - destruct (call_expected c s) as (s1 & Hcall & Hc1 & Hst1).
    destruct (IH s1) as (s2 & Hcalls & Hc2 & Hst2).
    exists s2. split_and!.
    + unfold mbind, M_bind. by rewrite Hcall.
    + congruence.
    + by rewrite Hst2, Hst1, Hc1.
Qed.

(** Saving records of distinct ids into an empty mapping gives the
    mapping of exactly those records. *)
Lemma expect_all_saves clock (saved : list PlaidItem) t :
  NoDup (itemId <$> saved) ->
  (map_to_list (expect_all clock (CallSaveItem <$> saved) (∅, t)).1).*2 ≡ₚ saved.
Proof.
  induction saved as [|item saved IH] using rev_ind; intros Hnd.
  - simpl. by rewrite map_to_list_empty.
  - rewrite fmap_app in Hnd. apply NoDup_app in Hnd as (Hnd & Hfresh & _).
    unfold expect_all in *. rewrite fmap_app, foldl_app. simpl.
    set (g := (foldl _ _ _).1) in *.
    assert (forall k, is_Some (g !! k) -> k ∈ itemId <$> saved) as Hdom.
    { unfold g. clear. induction saved as [|x saved IH] using rev_ind; intros k.
      - simpl. rewrite lookup_empty. by intros [? ?].
      - rewrite !fmap_app, foldl_app. simpl. rewrite elem_of_app.
        destruct (decide (itemId x = k)) as [->|Hne].
        + intros _. right. by left.
        + rewrite lookup_insert_ne by done. intros ?%IH. by left. }
    rewrite map_to_list_insert.
    + rewrite fmap_cons. simpl. rewrite (IH Hnd).
      by rewrite (Permutation_app_comm saved [item]).
    + destruct (g !! itemId item) eqn:Hg; [|done].
      exfalso. apply (Hfresh (itemId item)); [apply Hdom; eauto|by left].
Qed.

End Refinement.

(** ** Persistence *)

Section Persistence.
Context {host : Host} {laws : HostLaws host}.
Implicit Types (s : Sys) (w : World).

(** A successful [save] of a well-formed mapping brings the file in
    step with the store. *)
Lemma save_in_sync s :
  NoDup (Map_keys (items (this s))) ->
  can_write (filePath (this s)) (disk (world s)) = true ->
  exists s', save s = (Ok tt, s') /\ this s' = this s
    /\ clock (world s') = clock (world s) /\ ticks (world s') = ticks (world s)
    /\ in_sync s'.
Proof.
  intros Hnd Hcw.
  destruct (save_written s Hcw) as (w & Hsave & Hfile & Hcw' & _).
  destruct (save_returns s) as (w' & Hsave' & Hc & Ht & _).
  rewrite Hsave in Hsave'. injection Hsave' as <-.
  eexists. split; [exact Hsave|]. simpl. split_and!; try done.
  unfold in_sync. simpl. split_and!; try done.
  erewrite constructor_reads by (first [exact Hfile | apply JSON_parse_stringify]).
  simpl. eexists. split; [done|]. simpl. by apply new_Map_fromEntries.
Qed.

(** The agreement does not depend on the clock or the console. *)
Lemma in_sync_same_disk s s' :
  this s' = this s -> disk (world s') = disk (world s) -> in_sync s -> in_sync s'.
Proof.
  intros Hthis Hdisk (Hnd & Hcw & store' & Hctor & Hperm).
  unfold in_sync. rewrite Hthis, Hdisk. split_and!; try done.
  exists store'. split; [|done].
  by rewrite (constructor_disk _ (world s') (world s)).
Qed.

Lemma updateItem_in_sync s id updates :
  in_sync s ->
  exists s', updateItem id updates s = (Ok tt, s')
    /\ filePath (this s') = filePath (this s) /\ in_sync s'.
Proof.
  intros Hsync. destruct (Map_get id (items (this s))) as [existing|] eqn:Hget.
  - unfold updateItem. step. rewrite Hget. step. unfold Date_toISOString. simpl.
    match goal with |- context [save ?s0] =>
      destruct (save_in_sync s0) as (s' & -> & Hthis & _ & _ & Hsync') end.
    + simpl. apply Map_set_NoDup, Hsync.
    + simpl. apply Hsync.
    + exists s'. split_and!; try done. by rewrite Hthis.
  - rewrite updateItem_missing by done. eauto.
Qed.

(** Every mutation returns without an error and keeps the store and its
    file in step. *)
Lemma call_in_sync c s :
  in_sync s ->
  exists s', call c s = (Ok tt, s')
    /\ filePath (this s') = filePath (this s) /\ in_sync s'.
Proof.
  intros Hsync. destruct c as [item|id updates|id|id cursor|id status]; simpl.
  - unfold saveItem. step.
    match goal with |- context [save ?s0] =>
      destruct (save_in_sync s0) as (s' & -> & Hthis & _ & _ & Hsync') end.
    + simpl. apply Map_set_NoDup, Hsync.
    + simpl. apply Hsync.
    + exists s'. split_and!; try done. by rewrite Hthis.
  - by apply updateItem_in_sync.
  - unfold deleteItem. step.
    match goal with |- context [save ?s0] =>
      destruct (save_in_sync s0) as (s' & -> & Hthis & _ & _ & Hsync') end.
    + simpl. apply Map_delete_NoDup, Hsync.
    + simpl. apply Hsync.
    + exists s'. split_and!; try done. by rewrite Hthis.
  - unfold updateSyncCursor. step. unfold Date_toISOString. simpl.
    match goal with |- context [updateItem ?i ?u ?s0] =>
      destruct (updateItem_in_sync s0 i u) as (s' & -> & Hpath & Hsync') end.
    + by apply (in_sync_same_disk s).
    + eauto.
  - by apply updateItem_in_sync.
Qed.

Lemma calls_in_sync cs s :
  in_sync s ->
  exists s', calls cs s = (Ok tt, s')
    /\ filePath (this s') = filePath (this s) /\ in_sync s'.
Proof.
  revert s. induction cs as [|c cs IH]; intros s Hsync; simpl.
  - by exists s.
  - destruct (call_in_sync c s Hsync) as (s1 & Hcall & Hpath1 & Hsync1).
    destruct (IH s1 Hsync1) as (s2 & Hcalls & Hpath2 & Hsync2).
    exists s2. split_and!; [|congruence|done].
    unfold mbind, M_bind. by rewrite Hcall.
Qed.

(** A store is in step with its file when the constructor returns it. *)
Lemma constructor_in_sync fp w store w' :
  can_write (default DEFAULT_STORE_PATH fp) (disk w) = true ->
  constructor fp w = (Ok store, w') ->
  w' = w /\ filePath store = default DEFAULT_STORE_PATH fp
  /\ in_sync {| this := store; world := w |}.
Proof.
  intros Hcw Hctor.
  destruct (constructor_returns fp w) as (m & Hret & Hnd).
  rewrite Hret in Hctor. injection Hctor as <- <-.
  split_and!; try done. unfold in_sync. simpl. split_and!; try done.
  exists {| items := m; filePath := default DEFAULT_STORE_PATH fp |}.
  split; [|done].
  destruct fp as [p|]; simpl; [by rewrite Hret|].
  destruct (constructor_returns (Some DEFAULT_STORE_PATH) w) as (m' & Hret' & _).
  rewrite Hret'. simpl.
  assert ((constructor (Some DEFAULT_STORE_PATH) w).1 = (constructor None w).1) as Heq by done.
  rewrite Hret, Hret' in Heq. simpl in Heq. by injection Heq as ->.
Qed.

(** C2. Take a store constructed over a file that can be written, and
    apply to it any sequence of [saveItem], [updateItem],
    [updateSyncCursor], [updateStatus] and [deleteItem] calls. None of
    them fails, and a new store constructed from the file they leave
    behind returns from [getAllItems] the item records the running store
    returns, each equal in every field, in an order of its own. These are
    the records of the mapping the specification describes: the one the
    first store was loaded with, changed call by call as [expect] says.
    In particular, after [saveItem] of [N] records of distinct ids into a
    store that started empty, the new store returns exactly those [N]
    records. *)
Theorem getAllItems_after_restart fp w0 store w cs r s :
  can_write (default DEFAULT_STORE_PATH fp) (disk w0) = true ->
  constructor fp w0 = (Ok store, w) ->
  calls cs {| this := store; world := w |} = (r, s) ->
  exists store' l l',
    r = Ok tt
    /\ constructor fp (world s) = (Ok store', world s)
    /\ getAllItems s = (Ok l, s)
    /\ getAllItems {| this := store'; world := world s |}
       = (Ok l', {| this := store'; world := world s |})
    /\ l' ≡ₚ l
    /\ l' ≡ₚ (map_to_list
                (expect_all (clock w) cs (mapping_of (items store), ticks w)).1).*2
    /\ (forall saved,
          items store = [] ->
          cs = CallSaveItem <$> saved ->
          NoDup (itemId <$> saved) ->
          l' ≡ₚ saved /\ length l' = length saved).
Proof.
  intros Hcw Hctor Hcalls.
  destruct (constructor_in_sync fp w0 store w Hcw Hctor) as (-> & Hpath & Hsync).
  destruct (calls_in_sync cs _ Hsync) as (s' & Hcalls' & Hpath' & Hsync').
  rewrite Hcalls' in Hcalls. injection Hcalls as <- <-.
  destruct (calls_expected cs {| this := store; world := w0 |})
    as (s'' & Hcalls'' & _ & Hexpected).
  rewrite Hcalls' in Hcalls''. injection Hcalls'' as <-. simpl in Hexpected.
  destruct Hsync' as (Hnd & _ & store' & Hctor' & Hperm).
  simpl in Hpath'. rewrite Hpath', Hpath in Hctor'.
  destruct (constructor_returns fp (world s')) as (m & Hret & _).
  assert ((constructor (Some (default DEFAULT_STORE_PATH fp)) (world s')).1
          = (constructor fp (world s')).1) as Heq by (by destruct fp).
  rewrite Heq, Hret in Hctor'. simpl in Hctor'. injection Hctor' as <-.
  simpl in Hperm.
  assert (Map_values m ≡ₚ Map_values (items (this s'))) as Hvalues
    by (unfold Map_values; by rewrite Hperm).
  assert (Map_values m
          ≡ₚ (map_to_list
                (expect_all (clock w0) cs (mapping_of (items store), ticks w0)).1).*2)
    as Hrecords.
  { rewrite Hvalues, <- Hexpected. simpl. by apply mapping_of_values. }
  eexists _, (Map_values (items (this s'))), (Map_values m).
  split_and!; try done.
  intros saved Hempty -> Hids.
  assert (Map_values m ≡ₚ saved) as Hsaved.
  { rewrite Hrecords, Hempty. by apply expect_all_saves. }
  split; [done|]. by rewrite Hsaved.
Qed.

(** The store that takes the cast at its word starts empty over a path
    where there is no file, or a file that is empty, or a file whose
    content [JSON.parse] rejects or reads as [null]. *)
Lemma constructor_of_items_starts_empty fp w :
  let path := default DEFAULT_STORE_PATH fp in
  nodes (disk w) !! path = None
  \/ nodes (disk w) !! path = Some (File EmptyString)
  \/ (exists data e, nodes (disk w) !! path = Some (File data) /\ JSON_parse data = Err e)
  \/ (exists data, nodes (disk w) !! path = Some (File data) /\ JSON_parse data = Ok JsonNull) ->
  exists store,
    constructor fp w = (Ok store, w)
    /\ items store = []
    /\ getAllItems {| this := store; world := w |}
       = (Ok [], {| this := store; world := w |}).
Proof.
  intros path Hfile.
  exists {| items := []; filePath := path |}. split; [|done].
  destruct w as [[n ro] c t out]. simpl in *.
  unfold constructor, load. step. unfold existsSync, readFileSync. step.
  fold path.
  destruct Hfile as [Hp|[Hp|[(data & e & Hp & Hparse)|(data & Hp & Hparse)]]].
  - rewrite bool_decide_eq_false_2; [done|]. rewrite Hp. by intros [? ?].
  - rewrite bool_decide_eq_true_2 by eauto. simpl. rewrite Hp.
    destruct JSON_parse_empty as [e ->]. done.
  - rewrite bool_decide_eq_true_2 by eauto. simpl. by rewrite Hp, Hparse.
  - rewrite bool_decide_eq_true_2 by eauto. simpl. by rewrite Hp, Hparse.
Qed.

End Persistence.

(** ** Loading any file *)

Section LoadAnyFile.
Context {host : Host} {parser : Raw.Parser} {laws : Raw.ParserLaws parser}.

Lemma new_Map_nil {V} (entries : list (string * V)) :
  new_Map entries = [] <-> entries = [].
Proof.
  split; [|by intros ->].
  destruct entries as [|[k v] entries]; [done|]. unfold new_Map. simpl.
  assert (forall (l : list (string * V)) m, m <> [] ->
            fold_left (fun m' kv => Map_set kv.1 kv.2 m') l m <> []) as Hkeeps.
  { induction l as [|[k' v'] l IH]; intros m Hm; simpl; [done|].
    apply IH. destruct m as [|[k0 v0] m]; [done|]. simpl.
    by destruct (String.eqb k0 k'). }
  intros Hnil. exfalso. by apply (Hkeeps entries [(k, v)]).
Qed.

(** What the constructor leaves in the [Map], for every file. *)
Lemma Raw_constructor_returns fp w :
  let path := default DEFAULT_STORE_PATH fp in
  Raw.constructor fp w
  = (Ok {| Raw.items :=
             match nodes (disk w) !! path with
             | Some (File data) =>
                 match value ← Raw.JSON_parse data; Raw.Object_entries value with
                 | Ok entries => new_Map entries
                 | Err _ => []
                 end
             | _ => []
             end;
           Raw.filePath := path |}, w).
Proof.
  intros path. destruct w as [[n ro] c t out]. simpl.
  unfold Raw.constructor, Raw.load, existsSync, readFileSync.
  unfold mbind, M_bind, mret, M_ret, gets, modify, throw, try_catch,
    Raw.in_world, Raw.returned, Raw.set_items. simpl.
  fold path.
  destruct (n !! path) as [[data|]|] eqn:Hp.
  - rewrite bool_decide_eq_true_2 by eauto. simpl. rewrite Hp. simpl.
    unfold Result_bind, modify.
    destruct (Raw.JSON_parse data) as [value|e]; simpl; [|done].
    by destruct (Raw.Object_entries value).
  - rewrite bool_decide_eq_true_2 by eauto. simpl. by rewrite Hp.
  - by rewrite bool_decide_eq_false_2 by (by intros [? ?]).
Qed.


End LoadAnyFile.

(** ** The gateway's contract *)

Section GatewayContract.
Import Link.
Context (getPlaidClient : Result PlaidApi) (getPlaidConfig : Result PlaidConfig).

(** C9. [createLinkToken] sends the provider one request. Its products
    are [[transactions]], its countries [[US]] and its language ["en"]
    when the options leave them out; it has a [webhook] exactly when the
    options or the configuration have one, the options' if they do and
    the configuration's otherwise, and likewise for [redirect_uri]. *)
Theorem createLinkToken_request client config options :
  getPlaidClient = Ok client ->
  getPlaidConfig = Ok config ->
  let request := linkTokenCreateRequest options config in
  createLinkToken getPlaidClient getPlaidConfig options
  = (response ← linkTokenCreate client request;
     Ok {| linkToken := link_token (data response);
           expiration := response_expiration (data response);
           requestId := link_request_id (data response) |})
  /\ (products options = None -> request_products request = [Products_Transactions])
  /\ (countryCodes options = None -> country_codes request = [CountryCode_Us])
  /\ (language options = None -> request_language request = "en")
  /\ (is_Some (webhook request)
      <-> is_Some (webhookUrl options) \/ is_Some (config_webhookUrl config))
  /\ (forall url, webhookUrl options = Some url -> webhook request = Some url)
  /\ (webhookUrl options = None -> webhook request = config_webhookUrl config)
  /\ (is_Some (redirect_uri request)
      <-> is_Some (redirectUri options) \/ is_Some (config_redirectUri config))
  /\ (forall uri, redirectUri options = Some uri -> redirect_uri request = Some uri)
  /\ (redirectUri options = None -> redirect_uri request = config_redirectUri config).
Proof.
  intros Hclient Hconfig request. split.
  { unfold createLinkToken. by rewrite Hclient, Hconfig. }
  destruct options as [user ps cs lang hook redirect token].
  destruct config as [chook credirect]. subst request. simpl.
  split_and!.
  - by intros ->.
  - by intros ->.
  - by intros ->.
  - destruct hook, chook; simpl; rewrite !is_Some_alt; tauto.
  - by intros url ->.
  - intros ->. by destruct chook.
  - destruct redirect, credirect; simpl; rewrite !is_Some_alt; tauto.
  - by intros uri ->.
  - intros ->. by destruct credirect.
Qed.

(** C10. Whenever the provider's item-remove call resolves, [removeItem]
    returns [removed = true] and the response's request id, whatever
    else the response holds. *)
Theorem removeItem_removed client token response :
  getPlaidClient = Ok client ->
  itemRemove client token = Ok response ->
  removeItem getPlaidClient token
  = Ok {| removed := true;
          removed_requestId := remove_request_id (data response) |}.
Proof.
  intros Hclient Hremove. unfold removeItem. rewrite Hclient. simpl.
  unfold mbind, Result_bind. by rewrite Hremove.
Qed.

End GatewayContract.

(** ** The sample host obeys the laws *)

Lemma unflatten_flatten o : Sample.unflatten (Sample.flatten o) = Some o.
Proof.
  induction o as [|[k [f1 f2 f3 f4 f5 f6 f7 f8 f9 f10]] o IH]; [done|].
  simpl. rewrite IH. simpl. by destruct f7, f8.
Qed.

Lemma undigits_digits p : Sample.undigits (Sample.digits p) = Some p.
Proof. induction p as [p IH|p IH|]; simpl; by rewrite ?IH. Qed.

Lemma sample_parser_laws : Raw.ParserLaws Sample.parser.
Proof. split. by eexists. Qed.

Lemma sample_host_laws : HostLaws Sample.host.
Proof.
  split.
  - intros o. simpl. unfold Sample.parse, Sample.stringify. simpl.
    rewrite undigits_digits. simpl. rewrite decode_encode. simpl.
    by rewrite unflatten_flatten.
  - by eexists.
Qed.

(** ** The contract at work, and where the code departs from it *)

Section Runs.
Import Sample.

Lemma saveItem_then_getItem_witness :
  exists s', saveItem item_7 (store_of_A ticking) = (Ok tt, s')
    /\ getItem "7" s' = (Ok (Some item_7), s').
Proof. exact (saveItem_then_getItem (store_of_A ticking) item_7). Defined.

Lemma getAllItems_after_restart_witness :
  let fp := Some store_file in
  let w0 := world_at ticking empty_disk in
  let store := {| items := []; filePath := store_file |} in
  let cs := [CallSaveItem item_A; CallSaveItem item_7;
             CallUpdateSyncCursor "item-A" "c1"; CallDeleteItem "none"] in
  let run := calls cs {| this := store; world := w0 |} in
  HostLaws host
  /\ can_write store_file (disk w0) = true
  /\ constructor fp w0 = (Ok store, w0)
  /\ exists store' l l',
       run.1 = Ok tt
       /\ constructor fp (world run.2) = (Ok store', world run.2)
       /\ getAllItems run.2 = (Ok l, run.2)
       /\ getAllItems {| this := store'; world := world run.2 |}
          = (Ok l', {| this := store'; world := world run.2 |})
       /\ l' ≡ₚ l
       /\ l' ≡ₚ (map_to_list (expect_all ticking cs (∅, 0)).1).*2.
Proof.
  intros fp w0 store cs run.
  split; [exact sample_host_laws|].
  split; [reflexivity|]. split; [reflexivity|].
  destruct (getAllItems_after_restart (laws := sample_host_laws) fp w0 store w0 cs
              run.1 run.2 eq_refl eq_refl (surjective_pairing run))
    as (store' & l & l' & Hr & Hctor & Hl & Hl' & Hsame & Hrecords & _).
  exists store', l, l'.
  exact (conj Hr (conj Hctor (conj Hl (conj Hl' (conj Hsame Hrecords))))).
Defined.

Lemma getAllItems_after_restart_of_two :
  let fp := Some store_file in
  let w0 := world_at ticking empty_disk in
  let store := {| items := []; filePath := store_file |} in
  let run := calls [CallSaveItem item_A; CallSaveItem item_7]
               {| this := store; world := w0 |} in
  exists store' l',
    constructor fp (world run.2) = (Ok store', world run.2)
    /\ getAllItems {| this := store'; world := world run.2 |}
       = (Ok l', {| this := store'; world := world run.2 |})
    /\ l' ≡ₚ [item_A; item_7]
    /\ length l' = 2.
Proof.
  intros fp w0 store run.
  destruct (getAllItems_after_restart (laws := sample_host_laws) fp w0 store w0
              [CallSaveItem item_A; CallSaveItem item_7]
              run.1 run.2 eq_refl eq_refl (surjective_pairing run))
    as (store' & l & l' & _ & Hctor & _ & Hl' & _ & _ & Hsaved).
  destruct (Hsaved [item_A; item_7] eq_refl eq_refl) as [Hperm Hlen].
  { apply (proj1 (bool_decide_eq_true _)). vm_compute. reflexivity. }
  exists store', l'. exact (conj Hctor (conj Hl' (conj Hperm Hlen))).
Qed.



Lemma updateSyncCursor_then_getItem_witness :
  getItem "7" store_of_7 = (Ok (Some item_7), store_of_7)
  /\ exists s' item',
       updateSyncCursor "7" "c1" store_of_7 = (Ok tt, s')
       /\ getItem "7" s' = (Ok (Some item'), s')
       /\ syncCursor item' = Some "c1"
       /\ lastSyncAt item' = Some "2026-01-01T00:00:00.001Z"
       /\ createdAt item' = "2025-12-31T10:00:00.000Z"
       /\ exists latest, lastSyncAt item' = Some latest
            /\ String.ltb "2026-01-01T00:00:00.000Z" latest = true.
Proof.
  split; [reflexivity|].
  destruct (updateSyncCursor_then_getItem store_of_7 "7" "c1" item_7 eq_refl)
    as (s' & item' & Hcall & Hget & Hcursor & Hsync & Hcreated & Hlater).
  exists s', item'. split_and!; try done.
  by apply Hlater.
Defined.

Lemma mutations_and_timestamps_witness :
  let s := store_of_A ticking in
  getItem "item-A" s = (Ok (Some item_A), s)
  /\ (forall updates, exists s' item',
      updateItem "item-A" updates s = (Ok tt, s')
      /\ getItem "item-A" s' = (Ok (Some item'), s')
      /\ updatedAt item' = "2026-01-01T00:00:00.000Z"
      /\ createdAt item' = default "2025-12-31T09:00:00.000Z" (p_createdAt updates))
  /\ (forall cursor, exists s' item',
      updateSyncCursor "item-A" cursor s = (Ok tt, s')
      /\ getItem "item-A" s' = (Ok (Some item'), s')
      /\ updatedAt item' = "2026-01-01T00:00:00.001Z"
      /\ createdAt item' = "2025-12-31T09:00:00.000Z")
  /\ (forall status, exists s' item',
      updateStatus "item-A" status s = (Ok tt, s')
      /\ getItem "item-A" s' = (Ok (Some item'), s')
      /\ updatedAt item' = "2026-01-01T00:00:00.000Z"
      /\ createdAt item' = "2025-12-31T09:00:00.000Z")
  /\ (forall item, itemId item = "item-A" -> exists s',
      saveItem item s = (Ok tt, s')
      /\ getItem "item-A" s' = (Ok (Some item), s')).
Proof.
  split; [reflexivity|].
  apply (mutations_and_timestamps (store_of_A ticking) "item-A" item_A).
  reflexivity.
Defined.

Lemma mutations_and_accessToken_witness :
  let s := store_of_A ticking in
  getItem "item-A" s = (Ok (Some item_A), s)
  /\ (forall updates, exists s' item',
      updateItem "item-A" updates s = (Ok tt, s')
      /\ getItem "item-A" s' = (Ok (Some item'), s')
      /\ accessToken item' = default "access-sandbox-1" (p_accessToken updates))
  /\ (forall cursor, exists s' item',
      updateSyncCursor "item-A" cursor s = (Ok tt, s')
      /\ getItem "item-A" s' = (Ok (Some item'), s')
      /\ accessToken item' = "access-sandbox-1")
  /\ (forall status, exists s' item',
      updateStatus "item-A" status s = (Ok tt, s')
      /\ getItem "item-A" s' = (Ok (Some item'), s')
      /\ accessToken item' = "access-sandbox-1")
  /\ (forall item, itemId item = "item-A" -> exists s' item',
      saveItem item s = (Ok tt, s')
      /\ getItem "item-A" s' = (Ok (Some item'), s')
      /\ accessToken item' = accessToken item).
Proof.
  split; [reflexivity|].
  apply (mutations_and_accessToken (store_of_A ticking) "item-A" item_A).
  reflexivity.
Defined.

Lemma updateItem_missing_is_noop_witness :
  let s := store_of_A ticking in
  getItem "7" s = (Ok None, s)
  /\ (forall updates, updateItem "7" updates s = (Ok tt, s))
  /\ (forall status, updateStatus "7" status s = (Ok tt, s))
  /\ (forall cursor, exists s',
        updateSyncCursor "7" cursor s = (Ok tt, s')
        /\ this s' = this s
        /\ disk (world s') = disk (world s)
        /\ console (world s') = console (world s)).
Proof.
  split; [reflexivity|].
  apply (updateItem_missing_is_noop (store_of_A ticking) "7").
  reflexivity.
Defined.

Lemma deleteItem_then_getItem_witness :
  let s := store_of_A ticking in
  getItem "7" s = (Ok None, s)
  /\ exists s1 s2,
       deleteItem "7" s = (Ok tt, s1)
       /\ getItem "7" s1 = (Ok None, s1)
       /\ deleteItem "7" s1 = (Ok tt, s2)
       /\ this s2 = this s1
       /\ disk (world s2) = disk (world s1)
       /\ this s1 = this s.
Proof.
  split; [reflexivity|].
  destruct (deleteItem_then_getItem (store_of_A ticking) "7")
    as (s1 & s2 & H1 & H2 & H3 & H4 & H5 & H6).
  exists s1, s2. split_and!; try done. by apply H6.
Defined.

Lemma createLinkToken_request_witness :
  let request := Link.linkTokenCreateRequest (no_options "user-1") config_with_webhook in
  Link.createLinkToken (Ok answering) (Ok config_with_webhook) (no_options "user-1")
  = Ok {| Link.linkToken := "link-sandbox-1";
          Link.expiration := "2026-01-01T04:00:00Z";
          Link.requestId := "req-1" |}
  /\ Link.request_products request = ["transactions"]
  /\ Link.country_codes request = ["US"]
  /\ Link.request_language request = "en"
  /\ Link.webhook request = Some "https://example.test/hook"
  /\ Link.redirect_uri request = None.
Proof.
  destruct (createLinkToken_request (Ok answering) (Ok config_with_webhook)
              answering config_with_webhook (no_options "user-1")
              eq_refl eq_refl)
    as (Hcall & Hproducts & Hcountries & Hlanguage & _ & _ & Hhook & _ & _ & Hredirect).
  split_and!.
  - exact Hcall.
  - exact (Hproducts eq_refl).
  - exact (Hcountries eq_refl).
  - exact (Hlanguage eq_refl).
  - exact (Hhook eq_refl).
  - exact (Hredirect eq_refl).
Defined.

Lemma removeItem_removed_witness :
  Link.itemRemove answering "access-sandbox-1"
  = Ok {| Link.data := {| Link.remove_request_id := "req-3" |};
          Link.http_status := 200; Link.http_statusText := "OK" |}
  /\ Link.removeItem (Ok answering) "access-sandbox-1"
     = Ok {| Link.removed := true; Link.removed_requestId := "req-3" |}.
Proof.
  split; [reflexivity|].
  exact (removeItem_removed (Ok answering) answering "access-sandbox-1" _ eq_refl eq_refl).
Defined.

(** C3 as the specification words it fails when the clock is read twice
    within one millisecond: the second [updateSyncCursor] stores the
    [lastSyncAt] the first one stored, which is not strictly greater. *)
Lemma updateSyncCursor_within_one_millisecond :
  let s1 := (updateSyncCursor "item-A" "c1" (store_of_A stalled)).2 in
  let s2 := (updateSyncCursor "item-A" "c2" s1).2 in
  let t := "2026-01-01T00:00:00.000Z" in
  (getItem "item-A" s1).1 = Ok (Some (item_A_synced "c1"))
  /\ (updateSyncCursor "item-A" "c2" s1).1 = Ok tt
  /\ (getItem "item-A" s2).1 = Ok (Some (item_A_synced "c2"))
  /\ lastSyncAt (item_A_synced "c1") = Some t
  /\ lastSyncAt (item_A_synced "c2") = Some t
  /\ String.ltb t t = false.
Proof. vm_compute. split_and!; done. Qed.

(** C4 as the specification words it fails for [saveItem]: saving a
    record under an [itemId] the store holds reads no clock, so the
    stored [updatedAt] is the caller's (here the one the record already
    had), and the stored [createdAt] is the caller's too (here another
    one). *)
Lemma saveItem_keeps_the_callers_timestamps :
  let s := store_of_A ticking in
  let s' := (saveItem item_A_relinked s).2 in
  (getItem "item-A" s).1 = Ok (Some item_A)
  /\ (saveItem item_A_relinked s).1 = Ok tt
  /\ (getItem "item-A" s').1 = Ok (Some item_A_relinked)
  /\ updatedAt item_A_relinked = updatedAt item_A
  /\ ticks (world s') = ticks (world s)
  /\ createdAt item_A_relinked <> createdAt item_A.
Proof. vm_compute. split_and!; done. Qed.

(** C5 as the specification words it fails for [saveItem]: with no
    [deleteItem] in between, saving a record under an [itemId] the store
    holds leaves that [itemId] with another [accessToken]. *)
Lemma saveItem_replaces_the_accessToken :
  let s := store_of_A ticking in
  let s' := (saveItem item_A_relinked s).2 in
  (getItem "item-A" s).1 = Ok (Some item_A)
  /\ (saveItem item_A_relinked s).1 = Ok tt
  /\ (getItem "item-A" s').1 = Ok (Some item_A_relinked)
  /\ accessToken item_A_relinked <> accessToken item_A.
Proof. vm_compute. split_and!; done. Qed.

(** The order of [getAllItems] is the [Map]'s before a restart and the
    object's after it: an [itemId] that is an array index moves to the
    front. *)
Example getAllItems_order_after_restart :
  let s := (calls [CallSaveItem item_A; CallSaveItem item_7] (fresh_store ticking)).2 in
  (getAllItems s).1 = Ok [item_A; item_7]
  /\ (store ← (constructor (Some store_file) (world s)).1;
      (getAllItems {| this := store; world := world s |}).1)
     = Ok [item_7; item_A].
Proof. vm_compute. done. Qed.

(** The store's own file read without the cast: one property, under
    the item's id. *)
Example constructor_over_the_stores_file :
  let s := (saveItem item_A (fresh_store ticking)).2 in
  (Raw.items <$> (Raw.constructor (Some store_file) (world s)).1)
  = Ok [("item-A", item_json item_A)].
Proof. vm_compute. done. Qed.

(** A cursor update between the saves and the restart comes back with
    the records: the cursor, and the two readings of the clock. *)
Example getAllItems_after_a_cursor_update :
  let s := (calls [CallSaveItem item_A; CallSaveItem item_7;
                   CallUpdateSyncCursor "item-A" "c1"] (fresh_store ticking)).2 in
  (store ← (constructor (Some store_file) (world s)).1;
   (getAllItems {| this := store; world := world s |}).1)
  = Ok [item_7;
        {| itemId := "item-A"; accessToken := "access-sandbox-1";
           institutionId := "ins_109508"; institutionName := "Sandbox Bank";
           userId := "user-1"; status := "active";
           syncCursor := Some "c1"; lastSyncAt := Some "2026-01-01T00:00:00.000Z";
           createdAt := "2025-12-31T09:00:00.000Z";
           updatedAt := "2026-01-01T00:00:00.001Z" |}].
Proof. vm_compute. done. Qed.

(** On a disk that refuses the write, [saveItem] still returns and the
    store still answers, a warning is logged, and a restart finds
    nothing. *)
Example saveItem_on_a_readonly_disk :
  let w := world_at ticking {| nodes := ∅; readonly := true |} in
  let run := saveItem item_A {| this := {| items := []; filePath := store_file |};
                                world := w |} in
  run.1 = Ok tt
  /\ (getItem "item-A" run.2).1 = Ok (Some item_A)
  /\ console (world run.2)
     = ["[WARN] Failed to save Plaid items: EROFS: read-only file system, mkdir '/d'"]
  /\ (items <$> (constructor (Some store_file) (world run.2)).1) = Ok [].
Proof. vm_compute. done. Qed.

(** Where a regular file stands in the place of a directory above the
    store file, the file cannot be written: [saveItem] returns, the disk
    stays as it was, one warning is logged, and a restart finds
    nothing. *)
Example saveItem_under_a_regular_file :
  let path := "/d/sub/plaid-items.json" in
  let w := world_at ticking disk_with_a_file_in_the_way in
  let run := saveItem item_A {| this := {| items := []; filePath := path |};
                                world := w |} in
  can_write path (disk w) = false
  /\ run.1 = Ok tt
  /\ (getItem "item-A" run.2).1 = Ok (Some item_A)
  /\ disk (world run.2) = disk w
  /\ length (console (world run.2)) = 1
  /\ (items <$> (constructor (Some path) (world run.2)).1) = Ok [].
Proof. vm_compute. done. Qed.

End Runs.

(** * Beyond the contract: the rest of the store *)

(** ** Lookups by key in a well-formed [Map] *)

Section MapLookups.
Context {V : Type}.
Implicit Types (m : JsMap V) (k : string) (v : V).

Lemma Map_get_Some_elem k v m :
  NoDup (Map_keys m) -> Map_get k m = Some v <-> (k, v) ∈ m.
Proof.
  induction m as [|[k' v'] m IH]; simpl; intros Hnd.
  - split; [done | by intros ?%elem_of_nil].
  - apply NoDup_cons in Hnd as [Hk' Hnd]. rewrite elem_of_cons.
    destruct (String.eqb_spec k' k) as [->|Hne].
    + split; [intros [= ->]; by left|].
      intros [[= ->]|Hin]; [done|]. exfalso. apply Hk'.
      unfold Map_keys. apply list_elem_of_fmap. by exists (k, v).
    + rewrite IH by done. split; [by right|]. intros [[= ? ?]|?]; [congruence|done].
Qed.

(** Two [Map]s with the same entries answer every [get] alike, whatever
    their orders. *)
Lemma Map_get_Permutation k m m' :
  NoDup (Map_keys m) -> m ≡ₚ m' -> Map_get k m = Map_get k m'.
Proof.
  intros Hnd Hperm.
  assert (NoDup (Map_keys m')) as Hnd' by (unfold Map_keys in *; by rewrite <- Hperm).
  destruct (Map_get k m) as [v|] eqn:Hget.
  - symmetry. apply Map_get_Some_elem; [done|]. rewrite <- Hperm.
    by apply Map_get_Some_elem.
  - symmetry. apply Map_get_None. apply Map_get_None in Hget.
    unfold Map_keys in *. by rewrite <- Hperm.
Qed.

(** [set] on a key the [Map] holds changes the value where it stands. *)
Lemma Map_set_present k v v0 m :
  Map_get k m = Some v0 ->
  exists m1 m2, m = m1 ++ (k, v0) :: m2 /\ Map_set k v m = m1 ++ (k, v) :: m2
    /\ k ∉ Map_keys m1.
Proof.
  induction m as [|[k' v'] m IH]; simpl; [done|].
  destruct (String.eqb_spec k' k) as [->|Hne].
  - intros [= ->]. exists [], m. split_and!; [done..|apply not_elem_of_nil].
  - intros Hget. destruct (IH Hget) as (m1 & m2 & -> & -> & Hk).
    exists ((k', v') :: m1), m2. split_and!; [done..|].
    simpl. rewrite not_elem_of_cons. by split; [congruence|].
Qed.

(** [delete] of a key the [Map] holds takes out that entry and no other. *)
Lemma Map_delete_present k v0 m :
  NoDup (Map_keys m) -> Map_get k m = Some v0 ->
  exists m1 m2, m = m1 ++ (k, v0) :: m2 /\ Map_delete k m = m1 ++ m2.
Proof.
  induction m as [|[k' v'] m IH]; simpl; [done|].
  intros [Hk' Hnd]%NoDup_cons.
  destruct (String.eqb_spec k' k) as [->|Hne].
  - intros [= ->]. exists [], m. split; [done|]. simpl.
    apply Map_delete_absent. by apply Map_get_None.
  - intros Hget. destruct (IH Hnd Hget) as (m1 & m2 & -> & ->).
    by exists ((k', v') :: m1), m2.
Qed.

End MapLookups.

(** ** Calls never throw, and memory does not depend on the disk *)

Section StoreAlways.
Context {host : Host}.
Implicit Types (s : Sys) (c : Mutation) (cs : list Mutation).

#[local] Arguments err_message : simpl never.

(** Every call returns, on every disk. *)
Lemma call_returns c s :
  exists s', call c s = (Ok tt, s')
    /\ filePath (this s') = filePath (this s)
    /\ clock (world s') = clock (world s).
Proof.
  destruct c as [item|id updates|id|id cursor|id status]; simpl.
  - destruct (saveItem_returns s item) as (w & -> & Hc & _). eauto.
  - destruct (Map_get id (items (this s))) as [existing|] eqn:Hget.
    + destruct (updateItem_existing s id updates existing Hget) as (w & -> & Hc & _).
      eauto.
    + rewrite updateItem_missing by done. eauto.
  - destruct (deleteItem_returns s id) as (w & -> & Hc & _). eauto.
  - unfold updateSyncCursor. step. unfold Date_toISOString. step.
    destruct (Map_get id (items (this s))) as [existing|] eqn:Hget.
    + match goal with |- context [updateItem ?i ?u ?s0] =>
        destruct (updateItem_existing s0 i u existing Hget) as (w & -> & Hc & _) end.
      eauto.
    + rewrite updateItem_missing by done. eauto.
  - unfold updateStatus.
    destruct (Map_get id (items (this s))) as [existing|] eqn:Hget.
    + match goal with |- context [updateItem ?i ?u ?s0] =>
        destruct (updateItem_existing s0 i u existing Hget) as (w & -> & Hc & _) end.
      eauto.
    + rewrite updateItem_missing by done. eauto.
Qed.

(** What a call leaves in memory and on the clock is the same on every
    disk. *)
Lemma call_memory c s1 s2 :
  this s1 = this s2 ->
  clock (world s1) = clock (world s2) ->
  ticks (world s1) = ticks (world s2) ->
  this (call c s1).2 = this (call c s2).2
  /\ clock (world (call c s1).2) = clock (world (call c s2).2)
  /\ ticks (world (call c s1).2) = ticks (world (call c s2).2).
Proof.
  intros Hthis Hclock Hticks.
  destruct c as [item|id updates|id|id cursor|id status]; simpl.
  - destruct (saveItem_returns s1 item) as (w1 & -> & Hc1 & Ht1).
    destruct (saveItem_returns s2 item) as (w2 & -> & Hc2 & Ht2).
    simpl. rewrite Hthis. split_and!; congruence.
  - destruct (Map_get id (items (this s1))) as [existing|] eqn:Hget.
    + destruct (updateItem_existing s1 id updates existing Hget) as (w1 & -> & Hc1 & Ht1).
      rewrite Hthis in Hget.
      destruct (updateItem_existing s2 id updates existing Hget) as (w2 & -> & Hc2 & Ht2).
      simpl. rewrite Hthis, Hclock, Hticks. split_and!; congruence.
    + rewrite (updateItem_missing s1) by done. rewrite Hthis in Hget.
      rewrite (updateItem_missing s2) by done. done.
  - destruct (deleteItem_returns s1 id) as (w1 & -> & Hc1 & Ht1).
    destruct (deleteItem_returns s2 id) as (w2 & -> & Hc2 & Ht2).
    simpl. rewrite Hthis. split_and!; congruence.
  - unfold updateSyncCursor. step. unfold Date_toISOString. step.
    rewrite Hclock, Hticks.
    destruct (Map_get id (items (this s1))) as [existing|] eqn:Hget.
    + match goal with |- context [(updateItem ?i ?u ?s0).2] =>
        destruct (updateItem_existing s0 i u existing Hget) as (w1 & -> & Hc1 & Ht1) end.
      rewrite Hthis in Hget.
      match goal with |- context [(updateItem ?i ?u ?s0).2] =>
        destruct (updateItem_existing s0 i u existing Hget) as (w2 & -> & Hc2 & Ht2) end.
      simpl in *. rewrite Hthis, Hclock, Hticks. split_and!; congruence.
    + rewrite updateItem_missing by done. rewrite Hthis in Hget.
      rewrite updateItem_missing by done. simpl. split_and!; congruence.
  - unfold updateStatus.
    destruct (Map_get id (items (this s1))) as [existing|] eqn:Hget.
    + match goal with |- context [(updateItem ?i ?u s1).2] =>
        destruct (updateItem_existing s1 i u existing Hget) as (w1 & -> & Hc1 & Ht1) end.
      rewrite Hthis in Hget.
      match goal with |- context [(updateItem ?i ?u s2).2] =>
        destruct (updateItem_existing s2 i u existing Hget) as (w2 & -> & Hc2 & Ht2) end.
      simpl. rewrite Hthis, Hclock, Hticks. split_and!; congruence.
    + rewrite (updateItem_missing s1) by done. rewrite Hthis in Hget.
      rewrite (updateItem_missing s2) by done. done.
Qed.

(** X1. No sequence of store calls throws, whatever the disk does, and
    what the store then holds in memory does not depend on the disk: two
    stores that hold the same mapping and read the same clock hold the
    same mapping after the same calls, one on a disk that takes every
    write and one on a disk that refuses them. *)
Theorem calls_ignore_the_disk cs s1 s2 :
  this s1 = this s2 ->
  clock (world s1) = clock (world s2) ->
  ticks (world s1) = ticks (world s2) ->
  (calls cs s1).1 = Ok tt
  /\ (calls cs s2).1 = Ok tt
  /\ this (calls cs s1).2 = this (calls cs s2).2
  /\ forall id, (getItem id (calls cs s1).2).1 = (getItem id (calls cs s2).2).1.
Proof.
  revert s1 s2. induction cs as [|c cs IH]; intros s1 s2 Hthis Hclock Hticks.
  - simpl. split_and!; try done. intros id. unfold getItem, gets. simpl.
    by rewrite Hthis.
  - destruct (call_memory c s1 s2 Hthis Hclock Hticks) as (Hthis' & Hclock' & Hticks').
    destruct (call_returns c s1) as (s1' & Hcall1 & _).
    destruct (call_returns c s2) as (s2' & Hcall2 & _).
    rewrite Hcall1, Hcall2 in *. simpl in *.
    unfold mbind, M_bind. rewrite Hcall1, Hcall2. by apply IH.
Qed.


End StoreAlways.

(** ** Lookups after a restart *)

Section Restart.
Context {host : Host} {laws : HostLaws host}.
Implicit Types (s : Sys) (cs : list Mutation).

(** X3. After any sequence of calls on a store whose file can be written,
    a store constructed anew over the same path answers [getItem] for
    every [itemId] as the running store does: what was saved or updated
    is found as it was left, what was deleted or never saved is absent. *)
Theorem getItem_after_restart fp w0 store w cs r s id :
  can_write (default DEFAULT_STORE_PATH fp) (disk w0) = true ->
  constructor fp w0 = (Ok store, w) ->
  calls cs {| this := store; world := w |} = (r, s) ->
  exists store',
    constructor fp (world s) = (Ok store', world s)
    /\ (getItem id {| this := store'; world := world s |}).1 = (getItem id s).1.
Proof.
  intros Hcw Hctor Hcalls.
  destruct (constructor_in_sync fp w0 store w Hcw Hctor) as (-> & Hpath & Hsync).
  destruct (calls_in_sync cs _ Hsync) as (s' & Hcalls' & Hpath' & Hsync').
  rewrite Hcalls' in Hcalls. injection Hcalls as <- <-.
  destruct Hsync' as (Hnd & _ & store' & Hctor' & Hperm).
  simpl in Hpath'. rewrite Hpath', Hpath in Hctor'.
  destruct (constructor_returns fp (world s')) as (m & Hret & Hnd').
  assert ((constructor (Some (default DEFAULT_STORE_PATH fp)) (world s')).1
          = (constructor fp (world s')).1) as Heq by (by destruct fp).
  rewrite Heq, Hret in Hctor'. simpl in Hctor'. injection Hctor' as <-.
  eexists. split; [exact Hret|].
  unfold getItem, gets. simpl. f_equal. symmetry.
  by apply Map_get_Permutation.
Qed.

End Restart.

(** ** The other lookups and the shape of the listing *)

Section StoreMore.
Context {host : Host}.
Implicit Types (s : Sys) (item : PlaidItem).

Lemma find_item_first (p : PlaidItem -> bool) (l : list PlaidItem) :
  match find_item p l with
  | Some item =>
      exists l1 l2, l = l1 ++ item :: l2 /\ p item = true
        /\ forall x, x ∈ l1 -> p x = false
  | None => forall x, x ∈ l -> p x = false
  end.
Proof.
  induction l as [|a l IH]; simpl.
  - by intros x ?%elem_of_nil.
  - destruct (p a) eqn:Hpa.
    + exists [], l. split_and!; [done..|]. by intros x ?%elem_of_nil.
    + destruct (find_item p l) as [item|].
      * destruct IH as (l1 & l2 & -> & Hp & Hfirst).
        exists (a :: l1), l2. split_and!; [done..|].
        intros x [->|Hx]%elem_of_cons; [done|by apply Hfirst].
      * intros x [->|Hx]%elem_of_cons; [done|by apply IH].
Qed.

(** X4. [getItemByAccessToken] returns the first item, in the order of
    [getAllItems], whose [accessToken] is the one asked for, and absent
    exactly when no item of the store has it; when two items share a
    token the one listed first is returned, without an error. *)
Theorem getItemByAccessToken_first s token :
  exists found all,
    getItemByAccessToken token s = (Ok found, s)
    /\ getAllItems s = (Ok all, s)
    /\ match found with
       | Some item =>
           exists before after,
             all = before ++ item :: after
             /\ accessToken item = token
             /\ forall x, x ∈ before -> accessToken x <> token
       | None => forall x, x ∈ all -> accessToken x <> token
       end.
Proof.
  do 2 eexists. split; [done|]. split; [done|].
  pose proof (find_item_first (fun item => String.eqb (accessToken item) token)
                (Map_values (items (this s)))) as Hfirst.
  simpl in *. destruct (find_item _ _) as [item|].
  - destruct Hfirst as (l1 & l2 & Hl & Hp%String.eqb_eq & Hbefore).
    exists l1, l2. split_and!; [done..|].
    intros x Hx. by apply String.eqb_neq, Hbefore.
  - intros x Hx. by apply String.eqb_neq, Hfirst.
Qed.

(** X5. [getItemsByUserId] returns exactly the items of [getAllItems]
    whose [userId] is the one asked for, in the same order, and the empty
    list, not an error, when there is none. *)
Theorem getItemsByUserId_lists s user :
  exists l all,
    getItemsByUserId user s = (Ok l, s)
    /\ getAllItems s = (Ok all, s)
    /\ l `sublist_of` all
    /\ (forall item, item ∈ l <-> item ∈ all /\ userId item = user)
    /\ ((forall item, item ∈ all -> userId item <> user) -> l = []).
Proof.
  do 2 eexists. split; [done|]. split; [done|].
  generalize (Map_values (items (this s))). intros all. split_and!.
  - induction all as [|a all IH]; simpl; [done|].
    destruct (String.eqb (userId a) user); by constructor.
  - intros item. by rewrite !list_elem_of_In, filter_In, String.eqb_eq.
  - intros Hnone. induction all as [|a all IH]; simpl; [done|].
    destruct (String.eqb_spec (userId a) user) as [Heq|Hne].
    + exfalso. by apply (Hnone a); [left|].
    + apply IH. intros item Hin. apply Hnone. by right.
Qed.

(** X6. [saveItem] is an insert-or-replace in place. Under an [itemId]
    the store lacks, the record goes to the end of [getAllItems]; under
    one it holds, the record takes the place of the old one and the
    listing keeps its length and its order. *)
Theorem saveItem_in_place s item :
  exists s' all all',
    saveItem item s = (Ok tt, s')
    /\ getAllItems s = (Ok all, s)
    /\ getAllItems s' = (Ok all', s')
    /\ match (getItem (itemId item) s).1 with
       | Ok (Some old) =>
           exists before after,
             all = before ++ old :: after /\ all' = before ++ item :: after
       | _ => all' = all ++ [item]
       end.
Proof.
  destruct (saveItem_returns s item) as (w & -> & _).
  do 3 eexists. split; [done|]. split; [done|]. split; [done|].
  unfold getItem, gets, Map_values. simpl.
  destruct (Map_get (itemId item) (items (this s))) as [old|] eqn:Hget.
  - destruct (Map_set_present _ item _ _ Hget) as (m1 & m2 & -> & -> & _).
    exists m1.*2, m2.*2. by rewrite !fmap_app, !fmap_cons.
  - rewrite Map_set_fresh by (by apply Map_get_None).
    by rewrite fmap_app.
Qed.

(** X7. On a store that holds each key once, [deleteItem] of an [itemId]
    the store holds takes that one record out of [getAllItems] and leaves
    the others in their order. *)
Theorem deleteItem_takes_one_out s id old :
  NoDup (Map_keys (items (this s))) ->
  getItem id s = (Ok (Some old), s) ->
  exists s' before after,
    deleteItem id s = (Ok tt, s')
    /\ getAllItems s = (Ok (before ++ old :: after), s)
    /\ getAllItems s' = (Ok (before ++ after), s').
Proof.
  intros Hnd. unfold getItem, gets. intros [= Hget].
  destruct (deleteItem_returns s id) as (w & -> & _).
  destruct (Map_delete_present _ _ _ Hnd Hget) as (m1 & m2 & Hm & Hdel).
  exists {| this := {| items := Map_delete id (items (this s));
                       filePath := filePath (this s) |}; world := w |},
    m1.*2, m2.*2.
  split; [done|]. unfold getAllItems, gets, Map_values. simpl.
  rewrite Hdel, Hm at 1. by rewrite !fmap_app, !fmap_cons.
Qed.

(** X8. A sequence of calls none of which is about a given [itemId]
    leaves [getItem] of that [itemId] as it was: no call touches the
    record of another item. *)
Theorem calls_leave_other_items cs s id :
  Forall (fun c => subject c <> id) cs ->
  (getItem id (calls cs s).2).1 = (getItem id s).1.
Proof.
  intros Hcs. unfold getItem, gets. simpl. f_equal.
  revert s. induction Hcs as [|c cs Hc _ IH]; intros s; [done|].
  destruct (call_returns c s) as (s' & Hcall & _).
  pose proof (call_others c s id Hc) as Hothers.
  unfold getItem, gets in Hothers. simpl in Hothers. injection Hothers as Hothers.
  change (calls (c :: cs) s) with (mbind (fun _ => calls cs) (call c) s).
  unfold mbind, M_bind. rewrite Hcall in Hothers |- *. by rewrite IH.
Qed.

(** X9. [updateItem] never moves a record to another key. When the
    partial fields carry an [itemId], the record stays under the key it
    had and now says another [itemId]; the record under that other key,
    if there is one, is untouched. *)
Theorem updateItem_keeps_the_key s id other updates existing :
  getItem id s = (Ok (Some existing), s) ->
  p_itemId updates = Some other ->
  exists s' item',
    updateItem id updates s = (Ok tt, s')
    /\ getItem id s' = (Ok (Some item'), s')
    /\ itemId item' = other
    /\ Map_keys (items (this s')) = Map_keys (items (this s))
    /\ (other <> id -> (getItem other s').1 = (getItem other s).1).
Proof.
  unfold getItem, gets. intros [= Hget] Hother.
  destruct (updateItem_existing s id updates existing Hget) as (w & -> & _).
  do 2 eexists. split; [done|]. simpl. rewrite Map_get_set_eq.
  split_and!; [done|by simpl; rewrite Hother|..].
  - by rewrite Map_keys_set, Hget.
  - intros Hne. f_equal. by rewrite Map_get_set_ne.
Qed.

(** X10. Constructing a store never throws and never changes the world:
    whatever is at the path (nothing, a directory, a file of any
    content), the constructor returns a store over the path it was given,
    or over the default path when it was given none, and leaves the disk,
    the clock and the console as they were. The store holds each key
    once. *)
Theorem constructor_only_reads fp w :
  exists store,
    constructor fp w = (Ok store, w)
    /\ getFilePath {| this := store; world := w |}
       = (Ok (default DEFAULT_STORE_PATH fp), {| this := store; world := w |})
    /\ NoDup (Map_keys (items store)).
Proof.
  destruct (constructor_returns fp w) as (m & Hret & Hnd).
  eexists. split; [exact Hret|]. by split.
Qed.

End StoreMore.

(** * Beyond the contract: the module's default store *)

Section DefaultStoreFacts.
Context {host : Host}.
Implicit Types (p : Process) (fp : option string).

(** A method call on a store the heap holds. *)
Lemma on_runs {A} (method : Method A) store obj p r s :
  heap p !! store = Some obj ->
  method {| this := obj; world := os p |} = (r, s) ->
  on store method p
  = (r, {| heap := <[store:=this s]> (heap p);
           defaultFileStore := defaultFileStore p; os := world s |}).
Proof. intros Hobj Hrun. unfold on. by rewrite Hobj, Hrun. Qed.

(** A method that only reads leaves the process as it is. *)
Lemma on_reads {A} (f : Sys -> A) store obj p :
  heap p !! store = Some obj ->
  on store (gets f) p = (Ok (f {| this := obj; world := os p |}), p).
Proof.
  intros Hobj. unfold on. rewrite Hobj. unfold gets. simpl.
  rewrite list_insert_id by done. by destruct p.
Qed.

Lemma on_getFilePath store obj p :
  heap p !! store = Some obj -> on store getFilePath p = (Ok (filePath obj), p).
Proof. apply (on_reads (fun s => filePath (this s))). Qed.

Lemma on_getItem id store obj p :
  heap p !! store = Some obj ->
  on store (getItem id) p = (Ok (Map_get id (items obj)), p).
Proof. apply (on_reads (fun s => Map_get id (items (this s)))). Qed.

Lemma on_getAllItems store obj p :
  heap p !! store = Some obj ->
  on store getAllItems p = (Ok (Map_values (items obj)), p).
Proof. apply (on_reads (fun s => Map_values (items (this s)))). Qed.

Lemma new_FilePlaidItemStore_returns fp p :
  exists obj,
    constructor fp (os p) = (Ok obj, os p)
    /\ filePath obj = default DEFAULT_STORE_PATH fp
    /\ new_FilePlaidItemStore fp p
       = (Ok (length (heap p)),
          {| heap := heap p ++ [obj]; defaultFileStore := defaultFileStore p;
             os := os p |}).
Proof.
  destruct (constructor_returns fp (os p)) as (m & Hctor & _).
  eexists. split; [exact Hctor|]. split; [done|].
  unfold new_FilePlaidItemStore, in_os. step. by rewrite Hctor.
Qed.

(** The four ways [getFilePlaidItemStore] can go. *)
Lemma getFilePlaidItemStore_current p store :
  defaultFileStore p = Some store ->
  getFilePlaidItemStore None p = (Ok store, p).
Proof. intros Hdefault. unfold getFilePlaidItemStore. step. by rewrite Hdefault. Qed.

Lemma getFilePlaidItemStore_same_path p store obj :
  defaultFileStore p = Some store ->
  heap p !! store = Some obj ->
  getFilePlaidItemStore (Some (filePath obj)) p = (Ok store, p).
Proof.
  intros Hdefault Hobj. unfold getFilePlaidItemStore. step. rewrite Hdefault.
  rewrite (on_getFilePath store obj) by done. simpl.
  by rewrite String.eqb_refl.
Qed.

Lemma getFilePlaidItemStore_fresh fp p :
  defaultFileStore p = None ->
  exists obj',
    constructor fp (os p) = (Ok obj', os p)
    /\ filePath obj' = default DEFAULT_STORE_PATH fp
    /\ getFilePlaidItemStore fp p
       = (Ok (length (heap p)),
          {| heap := heap p ++ [obj']; defaultFileStore := Some (length (heap p));
             os := os p |}).
Proof.
  intros Hdefault.
  destruct (new_FilePlaidItemStore_returns fp p) as (obj' & Hctor & Hpath & Hnew).
  exists obj'. split; [done|]. split; [done|].
  unfold getFilePlaidItemStore. step. by rewrite Hdefault, Hnew.
Qed.

Lemma getFilePlaidItemStore_other_path path p store obj :
  defaultFileStore p = Some store ->
  heap p !! store = Some obj ->
  path <> filePath obj ->
  exists obj',
    constructor (Some path) (os p) = (Ok obj', os p)
    /\ filePath obj' = path
    /\ getFilePlaidItemStore (Some path) p
       = (Ok (length (heap p)),
          {| heap := heap p ++ [obj']; defaultFileStore := Some (length (heap p));
             os := os p |}).
Proof.
  intros Hdefault Hobj Hne.
  destruct (new_FilePlaidItemStore_returns (Some path) p) as (obj' & Hctor & Hpath & Hnew).
  exists obj'. split; [done|]. split; [done|].
  unfold getFilePlaidItemStore. step. rewrite Hdefault.
  rewrite (on_getFilePath store obj) by done. simpl.
  apply String.eqb_neq in Hne. rewrite Hne. simpl. by rewrite Hnew.
Qed.

(** X11. Once the module has a default store, [getFilePlaidItemStore]
    called with no path, or with the path of that store, returns that
    same store and does nothing else: no file is read, no object is
    made. Called with no path it returns the current store even when
    that store is not at the default path. *)
Theorem getFilePlaidItemStore_reuses fp p store obj :
  defaultFileStore p = Some store ->
  heap p !! store = Some obj ->
  fp = None \/ fp = Some (filePath obj) ->
  getFilePlaidItemStore fp p = (Ok store, p).
Proof.
  intros Hdefault Hobj [->| ->].
  - by apply getFilePlaidItemStore_current.
  - by apply getFilePlaidItemStore_same_path.
Qed.

(** X12. When the module has no default store, or is asked for a path
    other than the current store's, [getFilePlaidItemStore] constructs a
    store over the path asked for (the default path when none is given),
    loaded from the file as it is now, makes it the default and returns
    it. The stores made before stay as they were, and the world is not
    changed. *)
Theorem getFilePlaidItemStore_constructs fp p :
  defaultFileStore p = None
  \/ (exists store obj path,
        defaultFileStore p = Some store /\ heap p !! store = Some obj
        /\ fp = Some path /\ path <> filePath obj) ->
  exists obj',
    constructor fp (os p) = (Ok obj', os p)
    /\ filePath obj' = default DEFAULT_STORE_PATH fp
    /\ getFilePlaidItemStore fp p
       = (Ok (length (heap p)),
          {| heap := heap p ++ [obj']; defaultFileStore := Some (length (heap p));
             os := os p |}).
Proof.
  intros [Hdefault|(store & obj & path & Hdefault & Hobj & -> & Hne)].
  - by apply getFilePlaidItemStore_fresh.
  - by apply (getFilePlaidItemStore_other_path path p store obj).
Qed.

(** X13. After [resetFilePlaidItemStore], the next
    [getFilePlaidItemStore] constructs a store from the file, whatever
    the previous default store held in memory. *)
Theorem resetFilePlaidItemStore_then_get fp p :
  exists obj',
    constructor fp (os p) = (Ok obj', os p)
    /\ (_ ← resetFilePlaidItemStore; getFilePlaidItemStore fp) p
       = (Ok (length (heap p)),
          {| heap := heap p ++ [obj']; defaultFileStore := Some (length (heap p));
             os := os p |}).
Proof.
  destruct (getFilePlaidItemStore_fresh fp
              {| heap := heap p; defaultFileStore := None; os := os p |})
    as (obj' & Hctor & _ & Hget); [done|].
  exists obj'. split; [done|].
  unfold resetFilePlaidItemStore, set_defaultFileStore. step. exact Hget.
Qed.

(** X14. The default store is one shared object. What a caller saves
    through the store it got is found by whoever asks for the default
    store next, in memory, whether or not the disk took the write. *)
Theorem default_store_is_shared fp p store p1 item :
  (forall st, defaultFileStore p = Some st -> is_Some (heap p !! st)) ->
  getFilePlaidItemStore fp p = (Ok store, p1) ->
  exists p2,
    on store (saveItem item) p1 = (Ok tt, p2)
    /\ getFilePlaidItemStore None p2 = (Ok store, p2)
    /\ on store (getItem (itemId item)) p2 = (Ok (Some item), p2).
Proof.
  intros Hwf Hget.
  assert (defaultFileStore p1 = Some store /\ is_Some (heap p1 !! store))
    as [Hdefault [obj Hobj]].
  { destruct (defaultFileStore p) as [st|] eqn:Hdef.
    - destruct (Hwf st eq_refl) as [obj Hobj].
      destruct fp as [path|].
      + destruct (decide (path = filePath obj)) as [->|Hne].
        * rewrite (getFilePlaidItemStore_same_path p st obj) in Hget by auto.
          injection Hget as <- <-. eauto.
        * destruct (getFilePlaidItemStore_other_path path p st obj)
            as (obj' & _ & _ & Hnew); [done..|].
          rewrite Hnew in Hget. injection Hget as <- <-. simpl.
          split; [done|]. exists obj'. by rewrite lookup_app_r, Nat.sub_diag.
      + rewrite (getFilePlaidItemStore_current p st) in Hget by auto.
        injection Hget as <- <-. eauto.
    - destruct (getFilePlaidItemStore_fresh fp p)
        as (obj' & _ & _ & Hnew); [done|].
      rewrite Hnew in Hget. injection Hget as <- <-. simpl.
      split; [done|]. exists obj'. by rewrite lookup_app_r, Nat.sub_diag. }
  destruct (saveItem_returns {| this := obj; world := os p1 |} item)
    as (w & Hsave & _).
  rewrite (on_runs _ store obj p1 _ _ Hobj Hsave). simpl.
  eexists. split; [done|].
  assert (store < length (heap p1)) as Hlt by (by eapply lookup_lt_Some).
  split.
  - by apply getFilePlaidItemStore_current.
  - erewrite on_getItem by (simpl; by apply list_lookup_insert_eq).
    simpl. by rewrite Map_get_set_eq.
Qed.

End DefaultStoreFacts.

(** * Beyond the contract: the rest of the gateway *)

Section GatewayMore.
Import Link.
Context (getPlaidClient : Result PlaidApi) (getPlaidConfig : Result PlaidConfig).

(** X15. [createUpdateLinkToken(userId, accessToken)] sends the provider
    one request, in update mode: it carries the access token, the user,
    the default products, countries and language, and a [webhook] and a
    [redirect_uri] exactly as the configuration has them. *)
Theorem createUpdateLinkToken_request client config user token :
  getPlaidClient = Ok client ->
  getPlaidConfig = Ok config ->
  createUpdateLinkToken getPlaidClient getPlaidConfig user token
  = (response ← linkTokenCreate client
       {| user_client_user_id := user;
          client_name := "BOA Statement Parser";
          request_products := [Products_Transactions];
          country_codes := [CountryCode_Us];
          request_language := "en";
          webhook := config_webhookUrl config;
          redirect_uri := config_redirectUri config;
          access_token := Some token |};
     Ok {| linkToken := link_token (data response);
           expiration := response_expiration (data response);
           requestId := link_request_id (data response) |}).
Proof.
  intros Hclient Hconfig. unfold createUpdateLinkToken, createLinkToken.
  rewrite Hclient, Hconfig. simpl. unfold linkTokenCreateRequest. simpl.
  by destruct config as [[hook|] [redirect|]].
Qed.

(** X16. The gateway neither swallows nor invents an error. Each of
    [createLinkToken], [exchangePublicToken] and [removeItem] fails
    exactly when the client or the configuration cannot be had or the
    provider rejects the call, and then with that very error. *)
Theorem gateway_errors_pass_through e :
  (forall options,
     createLinkToken getPlaidClient getPlaidConfig options = Err e
     <-> getPlaidClient = Err e
         \/ (exists client, getPlaidClient = Ok client /\ getPlaidConfig = Err e)
         \/ (exists client config,
               getPlaidClient = Ok client /\ getPlaidConfig = Ok config
               /\ linkTokenCreate client (linkTokenCreateRequest options config) = Err e))
  /\ (forall publicToken,
        exchangePublicToken getPlaidClient publicToken = Err e
        <-> getPlaidClient = Err e
            \/ (exists client, getPlaidClient = Ok client
                  /\ itemPublicTokenExchange client publicToken = Err e))
  /\ (forall accessToken,
        removeItem getPlaidClient accessToken = Err e
        <-> getPlaidClient = Err e
            \/ (exists client, getPlaidClient = Ok client
                  /\ itemRemove client accessToken = Err e)).
Proof.
  split_and!.
  - intros options. unfold createLinkToken.
    destruct getPlaidClient as [client|e1]; simpl.
    + destruct getPlaidConfig as [config|e2]; simpl.
      * destruct (linkTokenCreate client _) as [response|e3] eqn:Hcall; simpl.
        -- split; [done|]. intros [?|[(? & _ & ?)|(c & cfg & [= <-] & [= <-] & Hc)]];
             [done..|]. congruence.
        -- split.
           ++ intros [= ->]. right; right. by exists client, config.
           ++ intros [?|[(? & _ & ?)|(c & cfg & [= <-] & [= <-] & Hc)]];
                [done..|]. congruence.
      * split.
        -- intros [= ->]. right; left. by exists client.
        -- intros [?|[(? & _ & ?)|(c & cfg & _ & ? & _)]]; [done|congruence|done].
    + split.
      * intros [= ->]. by left.
      * intros [?|[(? & ? & _)|(c & cfg & ? & _)]]; [congruence|done..].
  - intros publicToken. unfold exchangePublicToken.
    destruct getPlaidClient as [client|e1]; simpl.
    + destruct (itemPublicTokenExchange client publicToken) as [response|e3] eqn:Hcall;
        simpl.
      * split; [done|]. intros [?|(c & [= <-] & Hc)]; [done|]. congruence.
      * split.
        -- intros [= ->]. right. by exists client.
        -- intros [?|(c & [= <-] & Hc)]; [done|]. congruence.
    + split; [intros [= ->]; by left|]. intros [?|(c & ? & _)]; [congruence|done].
  - intros accessToken. unfold removeItem.
    destruct getPlaidClient as [client|e1]; simpl.
    + destruct (itemRemove client accessToken) as [response|e3] eqn:Hcall; simpl.
      * split; [done|]. intros [?|(c & [= <-] & Hc)]; [done|]. congruence.
      * split.
        -- intros [= ->]. right. by exists client.
        -- intros [?|(c & [= <-] & Hc)]; [done|]. congruence.
    + split; [intros [= ->]; by left|]. intros [?|(c & ? & _)]; [congruence|done].
Qed.

End GatewayMore.

(** * Beyond the contract: the [plaid] command *)

Section PlaidCommandFacts.
Context {host : Host}.
Context (isPlaidConfigured : bool)
        (getPlaidClient : Result LinkMore.PlaidClient)
        (getAccounts : string -> Result (list Account))
        (stack : Error -> option string)
        (elsewhere : string -> nat -> PlaidOptions -> Cli unit).
Implicit Types (p : Process) (w : World) (options : PlaidOptions).

#[local] Arguments saveItem : simpl never.
#[local] Arguments deleteItem : simpl never.
#[local] Arguments String.append : simpl never.

Abbreviation command :=
  (plaid_command isPlaidConfigured getPlaidClient getAccounts stack elsewhere).

Lemma say_logged line p : say line p = (Returned tt, logged [line] p).
Proof. done. Qed.

Lemma logged_logged l1 l2 p : logged l2 (logged l1 p) = logged (l1 ++ l2) p.
Proof. unfold logged. simpl. by rewrite app_assoc. Qed.

Lemma logged_nil p : logged [] p = p.
Proof. destruct p as [h d [dk c t out]]. unfold logged. simpl. by rewrite app_nil_r. Qed.

(** A loop whose body only prints only prints. *)
Lemma for_each_logged {A} (body : A -> Cli unit) (lines : A -> list string) xs p :
  (forall x q, body x q = (Returned tt, logged (lines x) q)) ->
  for_each xs body p = (Returned tt, logged (concat (lines <$> xs)) p).
Proof.
  intros Hbody. revert p. induction xs as [|x xs IH]; intros p; simpl.
  - by rewrite logged_nil.
  - unfold mbind, Cli_bind. rewrite Hbody, IH. by rewrite logged_logged.
Qed.

(** A process that has just started gets its store from the file at the
    default path. *)
Lemma boot_store w obj :
  constructor None w = (Ok obj, w) ->
  run (getFilePlaidItemStore None) (boot w)
  = (Returned 0, {| heap := [obj]; defaultFileStore := Some 0; os := w |}).
Proof.
  intros Hctor.
  destruct (getFilePlaidItemStore_fresh None (boot w)) as (obj' & Hctor' & _ & Hget);
    [done|].
  simpl in Hctor'. rewrite Hctor in Hctor'. injection Hctor' as <-.
  unfold run. by rewrite Hget.
Qed.

(** X17. When the provider is not configured the command does nothing
    but read the store file, explain and exit with status 1, whatever the
    action: no provider call decides the outcome, and the store and the
    disk stay as they were. *)
Theorem plaid_command_not_configured action options w :
  isPlaidConfigured = false ->
  exists obj p',
    constructor None w = (Ok obj, w)
    /\ command action options (boot w) = (Exited 1, p')
    /\ heap p' = [obj]
    /\ disk (os p') = disk w
    /\ console (os p')
       = console w ++
         ["[ERROR] Plaid is not configured."; EmptyString;
          "Please set the following environment variables:";
          "  PLAID_CLIENT_ID=your-client-id";
          "  PLAID_SECRET=your-secret";
          "  PLAID_ENV=sandbox (or production)"; EmptyString;
          "Get these from: https://dashboard.plaid.com/team/keys"].
Proof.
  intros Hconf. destruct (constructor_returns None w) as (m & Hctor & _).
  do 2 eexists. split; [exact Hctor|].
  unfold plaid_command. unfold mbind at 1, Cli_bind at 1.
  rewrite (boot_store _ _ Hctor), Hconf.
  lazy [mbind Cli_bind mret Cli_ret say run in_os console_error modify log
        process_exit negb heap defaultFileStore os disk clock ticks console].
  simpl. split; [done|]. split; [done|]. split; [done|].
  by rewrite <- !app_assoc.
Qed.

(** X18. An action the command does not know ends it with status 1 and
    the list of the valid ones; the store and the disk stay as they
    were. *)
Theorem plaid_command_unknown_action action options w :
  isPlaidConfigured = true ->
  action ∉ ["link"; "list"; "status"; "remove"; "test"; "sync"; "reconcile";
            "identity"; "auth"; "liabilities"; "holdings"] ->
  exists obj p',
    constructor None w = (Ok obj, w)
    /\ command action options (boot w) = (Exited 1, p')
    /\ heap p' = [obj]
    /\ disk (os p') = disk w
    /\ console (os p')
       = console w ++
         ["[ERROR] Unknown action: " +:+ action;
          "Valid actions: link, list, status, sync, remove, reconcile, identity, auth, liabilities, holdings, test"].
Proof.
  intros Hconf Hunknown. destruct (constructor_returns None w) as (m & Hctor & _).
  do 2 eexists. split; [exact Hctor|].
  assert (action ∉ ["test"; "sync"; "reconcile"; "identity"; "auth"; "liabilities";
                    "holdings"]) as Hext.
  { rewrite !not_elem_of_cons in Hunknown. rewrite !not_elem_of_cons. tauto. }
  unfold plaid_command. unfold mbind at 1, Cli_bind at 1.
  rewrite (boot_store _ _ Hctor), Hconf.
  do 4 (apply not_elem_of_cons in Hunknown as [?%String.eqb_neq Hunknown]).
  unfold cli_try_catch.
  repeat match goal with H : (_ =? _)%string = false |- _ => rewrite H; clear H end.
  rewrite bool_decide_eq_false_2 by done.
  lazy [mbind Cli_bind mret Cli_ret say run in_os console_error modify log
        process_exit negb heap defaultFileStore os disk clock ticks console].
  simpl. split; [done|]. split; [done|]. split; [done|]. by rewrite <- !app_assoc.
Qed.

(** How a command goes on after a step that returned, exited or threw. *)
Lemma bind_Returned {A B} (m : Cli A) (f : A -> Cli B) p a p' :
  m p = (Returned a, p') -> (x ← m; f x) p = f a p'.
Proof. intros Hm. unfold mbind, Cli_bind. by rewrite Hm. Qed.

Lemma bind_Exited {A B} (m : Cli A) (f : A -> Cli B) p code p' :
  m p = (Exited code, p') -> (x ← m; f x) p = (Exited code, p').
Proof. intros Hm. unfold mbind, Cli_bind. by rewrite Hm. Qed.

Lemma bind_Thrown {A B} (m : Cli A) (f : A -> Cli B) p e p' :
  m p = (Thrown e, p') -> (x ← m; f x) p = (Thrown e, p').
Proof. intros Hm. unfold mbind, Cli_bind. by rewrite Hm. Qed.

Lemma say_then {B} line (k : Cli B) p : (_ ← say line; k) p = k (logged [line] p).
Proof. done. Qed.

Lemma await_Ok {A B} (r : Result A) (f : A -> Cli B) a p :
  r = Ok a -> (x ← await r; f x) p = f a p.
Proof. by intros ->. Qed.

Lemma await_Err {A B} (r : Result A) (f : A -> Cli B) e p :
  r = Err e -> (x ← await r; f x) p = (Thrown e, p).
Proof. by intros ->. Qed.

Lemma ret_then {A B} (a : A) (f : A -> Cli B) p : (x ← mret a; f x) p = f a p.
Proof. done. Qed.

Lemma now_then {B} (f : string -> Cli B) p :
  (x ← run (in_os Date_toISOString); f x) p
  = f (clock (os p) (ticks (os p)))
      {| heap := heap p; defaultFileStore := defaultFileStore p; os := tick (os p) |}.
Proof. done. Qed.

Lemma run_on_getFilePath {B} store obj (f : string -> Cli B) p :
  heap p !! store = Some obj ->
  (x ← run (on store getFilePath); f x) p = f (filePath obj) p.
Proof.
  intros Hobj. apply bind_Returned. unfold run. by rewrite (on_getFilePath _ obj).
Qed.

Lemma run_on_getAllItems {B} store obj (f : list PlaidItem -> Cli B) p :
  heap p !! store = Some obj ->
  (x ← run (on store getAllItems); f x) p = f (Map_values (items obj)) p.
Proof.
  intros Hobj. apply bind_Returned. unfold run. by rewrite (on_getAllItems _ obj).
Qed.

Lemma for_each_then {A B} (body : A -> Cli unit) (lines : A -> list string) xs
    (k : Cli B) p :
  (forall x q, body x q = (Returned tt, logged (lines x) q)) ->
  (_ ← for_each xs body; k) p = k (logged (concat (lines <$> xs)) p).
Proof.
  intros Hbody. unfold mbind, Cli_bind. by rewrite (for_each_logged _ lines).
Qed.

(** What the command's [catch] does with an error: it prints the message,
    the stack when asked to, and exits with status 1. *)
Lemma catch_exits (options : PlaidOptions) e p :
  exists lines,
    (let message := err_message e in
     _ ← say ("[ERROR] " +:+ message);
     _ ← (if bool_decide (opt_verbose options = Some true) then
            match stack e with
            | Some trace => say trace
            | None => mret tt
            end
          else mret tt);
     process_exit (A:=unit) 1) p
    = (Exited 1, logged (("[ERROR] " +:+ err_message e) :: lines) p).
Proof.
  cbv zeta. rewrite say_then.
  destruct (bool_decide _); [destruct (stack e) as [trace|]|].
  - exists [trace]. rewrite say_then. unfold process_exit. by rewrite logged_logged.
  - exists []. by rewrite ret_then.
  - exists []. by rewrite ret_then.
Qed.

Lemma run_on_getItem {B} id store obj (f : option PlaidItem -> Cli B) p :
  heap p !! store = Some obj ->
  (x ← run (on store (getItem id)); f x) p = f (Map_get id (items obj)) p.
Proof.
  intros Hobj. apply bind_Returned. unfold run. by rewrite (on_getItem _ _ obj).
Qed.

Lemma run_on {A B} (method : Method A) store obj (f : A -> Cli B) p a s :
  heap p !! store = Some obj ->
  method {| this := obj; world := os p |} = (Ok a, s) ->
  (x ← run (on store method); f x) p
  = f a {| heap := <[store:=this s]> (heap p);
           defaultFileStore := defaultFileStore p; os := world s |}.
Proof.
  intros Hobj Hrun. apply bind_Returned. unfold run.
  by rewrite (on_runs _ _ _ _ _ _ Hobj Hrun).
Qed.

Lemma missing_given id : id <> EmptyString -> missing (Some id) = false.
Proof. intros Hid. by apply String.eqb_neq. Qed.

(** The command up to the action: the store is taken from the file at the
    default path, and a configured provider lets the action run under the
    command's [catch]. *)
Lemma plaid_command_runs action options w obj :
  isPlaidConfigured = true ->
  constructor None w = (Ok obj, w) ->
  command action options (boot w)
  = cli_try_catch
      (if String.eqb action "link" then plaid_link getPlaidClient getAccounts 0 options
       else if String.eqb action "list" then plaid_list 0
       else if String.eqb action "status" then plaid_status getPlaidClient 0 options
       else if String.eqb action "remove" then plaid_remove getPlaidClient 0 options
       else if bool_decide (action ∈ ["test"; "sync"; "reconcile"; "identity";
                                      "auth"; "liabilities"; "holdings"])
       then elsewhere action 0 options
       else
         _ ← say ("[ERROR] Unknown action: " +:+ action);
         _ ← say "Valid actions: link, list, status, sync, remove, reconcile, identity, auth, liabilities, holdings, test";
         process_exit 1)
      (fun error =>
         let message := err_message error in
         _ ← say ("[ERROR] " +:+ message);
         _ ← (if bool_decide (opt_verbose options = Some true) then
                match stack error with
                | Some trace => say trace
                | None => mret tt
                end
              else mret tt);
         process_exit 1)
      {| heap := [obj]; defaultFileStore := Some 0; os := w |}.
Proof.
  intros Hconf Hctor. unfold plaid_command.
  rewrite (bind_Returned _ _ _ _ _ (boot_store _ _ Hctor)). by rewrite Hconf.
Qed.

(** How [plaid remove] runs when the store has the item and the provider
    accepts: the deletion is the store's [deleteItem], run after the first
    line has been printed. *)
Lemma plaid_remove_runs options w obj id item client response :
  isPlaidConfigured = true ->
  constructor None w = (Ok obj, w) ->
  opt_itemId options = Some id ->
  id <> EmptyString ->
  Map_get id (items obj) = Some item ->
  getPlaidClient = Ok client ->
  Link.itemRemove (LinkMore.api client) (accessToken item) = Ok response ->
  exists w',
    deleteItem id {| this := obj; world := log ("[INFO] Removing item: " +:+ id) w |}
    = (Ok tt, {| this := {| items := Map_delete id (items obj);
                            filePath := filePath obj |};
                 world := w' |})
    /\ command "remove" options (boot w)
       = (Returned tt,
          logged ["[SUCCESS] Item removed"]
            {| heap := [{| items := Map_delete id (items obj);
                           filePath := filePath obj |}];
               defaultFileStore := Some 0; os := w' |}).
Proof.
  intros Hconf Hctor Hopt Hid Hitem Hclient Hremove.
  rewrite (plaid_command_runs _ _ _ _ Hconf Hctor). unfold cli_try_catch.
  lazy [String.eqb Ascii.eqb Bool.eqb]. unfold plaid_remove.
  rewrite Hopt, (missing_given _ Hid). simpl default.
  rewrite (run_on_getItem _ 0 obj) by done. rewrite Hitem.
  rewrite say_then.
  rewrite (await_Ok _ _ {| Link.removed := true;
                           Link.removed_requestId :=
                             Link.remove_request_id (Link.data response) |}).
  2:{ rewrite Hclient. simpl. unfold Link.removeItem. simpl.
      unfold mbind, Result_bind. by rewrite Hremove. }
  set (p1 := logged _ _).
  destruct (deleteItem_returns {| this := obj; world := os p1 |} id) as (w' & Hdelete & _).
  assert (Hheap : heap p1 !! 0 = Some obj) by done.
  rewrite (run_on _ 0 obj _ p1 tt _ Hheap Hdelete).
  rewrite say_logged. exists w'. by split.
Qed.

(** X19. [plaid remove] of an item the store holds, when the provider
    accepts the removal: the command returns, the item is gone from the
    store and every other item is as it was. The provider is asked to
    remove the access token the store had for the item. *)
Theorem plaid_remove_removes options w obj id item client response :
  isPlaidConfigured = true ->
  constructor None w = (Ok obj, w) ->
  opt_itemId options = Some id ->
  id <> EmptyString ->
  getItem id {| this := obj; world := w |} = (Ok (Some item), {| this := obj; world := w |}) ->
  getPlaidClient = Ok client ->
  Link.itemRemove (LinkMore.api client) (accessToken item) = Ok response ->
  exists p',
    command "remove" options (boot w) = (Returned tt, p')
    /\ on 0 (getItem id) p' = (Ok None, p')
    /\ (forall id', id' <> id ->
          on 0 (getItem id') p' = (Ok (Map_get id' (items obj)), p'))
    /\ last (console (os p')) = Some "[SUCCESS] Item removed".
Proof.
  intros Hconf Hctor Hopt Hid Hitem Hclient Hremove.
  unfold getItem, gets in Hitem. injection Hitem as Hitem.
  destruct (plaid_remove_runs _ _ _ _ _ _ _ Hconf Hctor Hopt Hid Hitem Hclient Hremove)
    as (w' & _ & ->).
  eexists. split; [done|]. split_and!.
  - erewrite on_getItem by (simpl; reflexivity). simpl.
    by rewrite Map_get_delete_eq.
  - intros id' Hne. erewrite on_getItem by (simpl; reflexivity). simpl.
    by rewrite Map_get_delete_ne.
  - simpl. by rewrite last_snoc.
Qed.

(** X20. [plaid remove] when the provider refuses the removal: the command
    reports the provider's message and exits with status 1, and the item
    stays in the store and in its file; the local deletion comes only
    after the provider has accepted. *)
Theorem plaid_remove_refused options w obj id item e :
  isPlaidConfigured = true ->
  constructor None w = (Ok obj, w) ->
  opt_itemId options = Some id ->
  id <> EmptyString ->
  getItem id {| this := obj; world := w |} = (Ok (Some item), {| this := obj; world := w |}) ->
  Link.removeItem (LinkMore.api <$> getPlaidClient) (accessToken item) = Err e ->
  exists lines,
    command "remove" options (boot w)
    = (Exited 1, logged lines {| heap := [obj]; defaultFileStore := Some 0; os := w |})
    /\ ("[ERROR] " +:+ err_message e) ∈ lines.
Proof.
  intros Hconf Hctor Hopt Hid Hitem Hremove.
  unfold getItem, gets in Hitem. injection Hitem as Hitem.
  rewrite (plaid_command_runs _ _ _ _ Hconf Hctor). unfold cli_try_catch.
  lazy [String.eqb Ascii.eqb Bool.eqb]. unfold plaid_remove.
  rewrite Hopt, (missing_given _ Hid). simpl default.
  rewrite (run_on_getItem _ 0 obj) by done. rewrite Hitem.
  rewrite say_then, (await_Err _ _ e) by done.
  destruct (catch_exits options e
              (logged ["[INFO] Removing item: " +:+ id]
                 {| heap := [obj]; defaultFileStore := Some 0; os := w |}))
    as (lines & Hcatch).
  cbv zeta in Hcatch. rewrite Hcatch, logged_logged.
  eexists. split; [done|]. set_solver.
Qed.

(** X21. [plaid remove] without an item to remove, the id not given or
    given and unknown to the store: the command exits with status 1 without
    asking the provider, whatever the provider would answer, and the store
    and its file stay as they were. *)
Theorem plaid_remove_nothing options w obj :
  isPlaidConfigured = true ->
  constructor None w = (Ok obj, w) ->
  (forall id, opt_itemId options = Some id -> Map_get id (items obj) = None) ->
  exists lines,
    command "remove" options (boot w)
    = (Exited 1, logged lines {| heap := [obj]; defaultFileStore := Some 0; os := w |}).
Proof.
  intros Hconf Hctor Hnone.
  rewrite (plaid_command_runs _ _ _ _ Hconf Hctor). unfold cli_try_catch.
  lazy [String.eqb Ascii.eqb Bool.eqb]. unfold plaid_remove.
  destruct (missing (opt_itemId options)) eqn:Hmissing.
  - rewrite !say_then. unfold process_exit. rewrite logged_logged. by eexists.
  - destruct (opt_itemId options) as [id|] eqn:Hopt; [|done]. simpl default.
    rewrite (run_on_getItem _ 0 obj) by done. rewrite (Hnone id eq_refl).
    rewrite say_then. unfold process_exit. by eexists.
Qed.

(** How [plaid link] runs when the provider answers every step: the clock
    is read twice after the progress lines, and the record goes to the
    store's [saveItem]. *)
Lemma plaid_link_runs options w obj user sandbox exchange info accounts :
  isPlaidConfigured = true ->
  constructor None w = (Ok obj, w) ->
  opt_userId options = Some user ->
  user <> EmptyString ->
  LinkMore.createSandboxPublicToken getPlaidClient None None = Ok sandbox ->
  Link.exchangePublicToken (LinkMore.api <$> getPlaidClient) (LinkMore.publicToken sandbox)
  = Ok exchange ->
  LinkMore.getItem getPlaidClient (Link.exchanged_accessToken exchange) = Ok info ->
  getAccounts (Link.exchanged_accessToken exchange) = Ok accounts ->
  let record :=
    {| itemId := Link.exchanged_itemId exchange;
       accessToken := Link.exchanged_accessToken exchange;
       institutionId := default "unknown" (LinkMore.institutionId info);
       institutionName := "Sandbox Bank";
       userId := user;
       status := "active";
       syncCursor := None;
       lastSyncAt := None;
       createdAt := clock w (ticks w);
       updatedAt := clock w (S (ticks w)) |} in
  exists w1 w' lines,
    disk w1 = disk w /\ ticks w1 = S (S (ticks w))
    /\ saveItem record {| this := obj; world := w1 |}
       = (Ok tt, {| this := {| items := Map_set (itemId record) record (items obj);
                               filePath := filePath obj |};
                    world := w' |})
    /\ ticks w' = ticks w1
    /\ command "link" options (boot w)
       = (Returned tt,
          logged lines
            {| heap := [{| items := Map_set (itemId record) record (items obj);
                           filePath := filePath obj |}];
               defaultFileStore := Some 0; os := w' |}).
Proof.
  intros Hconf Hctor Hopt Huser Hsandbox Hexchange Hinfo Haccounts record.
  rewrite (plaid_command_runs _ _ _ _ Hconf Hctor). unfold cli_try_catch.
  lazy [String.eqb Ascii.eqb Bool.eqb]. unfold plaid_link.
  rewrite Hopt, (missing_given _ Huser). simpl default.
  rewrite say_then, (await_Ok _ _ _ _ Hsandbox), !say_then.
  rewrite (await_Ok _ _ _ _ Hexchange), say_then.
  rewrite (await_Ok _ _ _ _ Hinfo), say_then.
  rewrite (await_Ok _ _ _ _ Haccounts), say_then.
  rewrite (for_each_then _ (fun acc =>
    ["  - " +:+ acc_name acc +:+ " (" +:+ acc_type acc +:+ "/"
     +:+ default "N/A" (acc_subtype acc) +:+ ") ****"
     +:+ default "????" (acc_mask acc)])) by done.
  rewrite !logged_logged. rewrite !now_then.
  match goal with |- context [mbind _ (run (on 0 (saveItem _))) ?p] => set (p1 := p) end.
  change (mbind ?f (run (on 0 (saveItem _))) p1)
    with (mbind f (run (on 0 (saveItem record))) p1).
  destruct (saveItem_returns {| this := obj; world := os p1 |} record)
    as (w' & Hsave & Hclock & Hticks).
  assert (Hheap : heap p1 !! 0 = Some obj) by done.
  rewrite (run_on _ 0 obj _ p1 tt _ Hheap Hsave).
  rewrite !say_then.
  erewrite run_on_getFilePath by (simpl; reflexivity).
  rewrite !say_then, say_logged, !logged_logged.
  exists (os p1), w'. eexists. split_and!; try done.
Qed.

(** X22. [plaid link] when the provider answers every step: the command
    returns and the store holds, under the id the exchange gave, a record
    with the exchanged access token, the user of the command line, the
    institution the provider named (or [unknown]), the status [active], no
    cursor, and the two timestamps read from the clock one after the
    other. *)
Theorem plaid_link_links options w obj user sandbox exchange info accounts :
  isPlaidConfigured = true ->
  constructor None w = (Ok obj, w) ->
  opt_userId options = Some user ->
  user <> EmptyString ->
  LinkMore.createSandboxPublicToken getPlaidClient None None = Ok sandbox ->
  Link.exchangePublicToken (LinkMore.api <$> getPlaidClient) (LinkMore.publicToken sandbox)
  = Ok exchange ->
  LinkMore.getItem getPlaidClient (Link.exchanged_accessToken exchange) = Ok info ->
  getAccounts (Link.exchanged_accessToken exchange) = Ok accounts ->
  exists p',
    command "link" options (boot w) = (Returned tt, p')
    /\ on 0 (getItem (Link.exchanged_itemId exchange)) p'
       = (Ok (Some {| itemId := Link.exchanged_itemId exchange;
                      accessToken := Link.exchanged_accessToken exchange;
                      institutionId := default "unknown" (LinkMore.institutionId info);
                      institutionName := "Sandbox Bank";
                      userId := user;
                      status := "active";
                      syncCursor := None;
                      lastSyncAt := None;
                      createdAt := clock w (ticks w);
                      updatedAt := clock w (S (ticks w)) |}), p')
    /\ (forall id, id <> Link.exchanged_itemId exchange ->
          on 0 (getItem id) p' = (Ok (Map_get id (items obj)), p'))
    /\ ticks (os p') = S (S (ticks w)).
Proof.
  intros Hconf Hctor Hopt Huser Hsandbox Hexchange Hinfo Haccounts.
  destruct (plaid_link_runs _ _ _ _ _ _ _ _ Hconf Hctor Hopt Huser
              Hsandbox Hexchange Hinfo Haccounts)
    as (w1 & w' & lines & _ & Hticks1 & _ & Hticks & ->).
  eexists. split; [done|]. split_and!.
  - erewrite on_getItem by (simpl; reflexivity). simpl.
    by rewrite Map_get_set_eq.
  - intros id Hne. erewrite on_getItem by (simpl; reflexivity). simpl.
    by rewrite Map_get_set_ne.
  - simpl. congruence.
Qed.

(** X23. [plaid link] when one of the provider's steps fails, be it the
    sandbox token, the exchange, the item details or the account listing:
    the command reports the message and exits with status 1, and nothing
    is saved, not even an access token the exchange has already
    returned. *)
Theorem plaid_link_failed options w obj user e :
  isPlaidConfigured = true ->
  constructor None w = (Ok obj, w) ->
  opt_userId options = Some user ->
  user <> EmptyString ->
  (sandbox ← LinkMore.createSandboxPublicToken getPlaidClient None None;
   exchange ← Link.exchangePublicToken (LinkMore.api <$> getPlaidClient)
                (LinkMore.publicToken sandbox);
   info ← LinkMore.getItem getPlaidClient (Link.exchanged_accessToken exchange);
   getAccounts (Link.exchanged_accessToken exchange)) = Err e ->
  exists lines,
    command "link" options (boot w)
    = (Exited 1, logged lines {| heap := [obj]; defaultFileStore := Some 0; os := w |})
    /\ ("[ERROR] " +:+ err_message e) ∈ lines.
Proof.
  intros Hconf Hctor Hopt Huser Hsteps.
  rewrite (plaid_command_runs _ _ _ _ Hconf Hctor). unfold cli_try_catch.
  lazy [String.eqb Ascii.eqb Bool.eqb]. unfold plaid_link.
  rewrite Hopt, (missing_given _ Huser). simpl default.
  assert (forall lines e',
    e' = e ->
    exists lines',
      match (Thrown e', logged lines {| heap := [obj]; defaultFileStore := Some 0; os := w |})
            return Outcome unit * Process with
      | (Thrown e0, p') =>
          (let message := err_message e0 in
           _ ← say ("[ERROR] " +:+ message);
           _ ← (if bool_decide (opt_verbose options = Some true) then
                  match stack e0 with
                  | Some trace => say trace
                  | None => mret tt
                  end
                else mret tt);
           process_exit 1) p'
      | done => done
      end
      = (Exited 1, logged lines' {| heap := [obj]; defaultFileStore := Some 0; os := w |})
      /\ ("[ERROR] " +:+ err_message e) ∈ lines') as Hcaught.
  { intros lines e' ->. cbv beta iota.
    destruct (catch_exits options e
                (logged lines {| heap := [obj]; defaultFileStore := Some 0; os := w |}))
      as (lines' & Hcatch).
    cbv zeta in *. rewrite Hcatch, logged_logged.
    eexists. split; [done|]. set_solver. }
  unfold mbind at 1, Result_bind at 1 in Hsteps.
  rewrite say_then.
  destruct (LinkMore.createSandboxPublicToken getPlaidClient None None)
    as [sandbox|e1] eqn:Hsandbox.
  2:{ rewrite (await_Err _ _ e1) by done. apply Hcaught. congruence. }
  rewrite (await_Ok _ _ sandbox) by done. rewrite !say_then, logged_logged.
  unfold mbind at 1, Result_bind at 1 in Hsteps.
  destruct (Link.exchangePublicToken _ _) as [exchange|e2] eqn:Hexchange.
  2:{ rewrite (await_Err _ _ e2) by done. rewrite logged_logged.
      apply Hcaught. congruence. }
  rewrite (await_Ok _ _ exchange) by done. rewrite say_then, !logged_logged.
  unfold mbind at 1, Result_bind at 1 in Hsteps.
  destruct (LinkMore.getItem _ _) as [info|e3] eqn:Hinfo.
  2:{ rewrite (await_Err _ _ e3) by done. apply Hcaught. congruence. }
  rewrite (await_Ok _ _ info) by done. rewrite say_then, !logged_logged.
  rewrite (await_Err _ _ e) by done. by apply Hcaught.
Qed.


(** X25. [plaid status] only reads and prints: however it ends, with the
    status printed, the id missing or unknown, or the provider failing,
    the store and its file are as they were. *)
Theorem plaid_status_only_prints options w obj :
  isPlaidConfigured = true ->
  constructor None w = (Ok obj, w) ->
  exists outcome lines,
    command "status" options (boot w)
    = (outcome, logged lines {| heap := [obj]; defaultFileStore := Some 0; os := w |}).
Proof.
  intros Hconf Hctor.
  rewrite (plaid_command_runs _ _ _ _ Hconf Hctor). unfold cli_try_catch.
  lazy [String.eqb Ascii.eqb Bool.eqb]. unfold plaid_status.
  destruct (missing (opt_itemId options)) eqn:Hmissing.
  - rewrite !say_then. unfold process_exit. rewrite logged_logged. by eexists _, _.
  - simpl default. rewrite (run_on_getItem _ 0 obj) by done.
    destruct (Map_get _ (items obj)) as [item|].
    2:{ rewrite say_then. unfold process_exit. by eexists _, _. }
    destruct (LinkMore.getItem getPlaidClient (accessToken item)) as [info|e] eqn:Hinfo.
    + rewrite (await_Ok _ _ info) by done. rewrite !say_then, !logged_logged.
      destruct (LinkMore.item_error info) as [err|].
      * rewrite say_logged, logged_logged. by eexists _, _.
      * unfold mret, Cli_ret. by eexists _, _.
    + rewrite (await_Err _ _ e) by done.
      destruct (catch_exits options e
                  {| heap := [obj]; defaultFileStore := Some 0; os := w |})
        as (lines & Hcatch).
      cbv zeta in Hcatch. rewrite Hcatch. by eexists _, _.
Qed.

(** X26. [plaid link] without a user, the option not given or empty:
    the command prints the one line and exits with status 1 before any
    provider call, whatever the provider would answer, and the store and
    its file stay as they were. *)
Theorem plaid_link_needs_a_user options w obj :
  isPlaidConfigured = true ->
  constructor None w = (Ok obj, w) ->
  missing (opt_userId options) = true ->
  command "link" options (boot w)
  = (Exited 1, logged ["[ERROR] --user-id is required for link"]
                 {| heap := [obj]; defaultFileStore := Some 0; os := w |}).
Proof.
  intros Hconf Hctor Hmissing.
  rewrite (plaid_command_runs _ _ _ _ Hconf Hctor). unfold cli_try_catch.
  lazy [String.eqb Ascii.eqb Bool.eqb]. unfold plaid_link.
  by rewrite Hmissing, say_then.
Qed.

(** X27. The command never ends by throwing. Whatever the action and the
    options, whatever the provider does and whatever the actions done
    elsewhere do, the command either returns or exits the process: the
    store is constructed without an error before the [try], and what is
    thrown inside it is caught and turned into exit status 1. *)
Theorem plaid_command_never_throws action options w :
  exists p',
    command action options (boot w) = (Returned tt, p')
    \/ exists code, command action options (boot w) = (Exited code, p').
Proof.
  destruct (constructor_returns None w) as (m & Hctor & _).
  destruct isPlaidConfigured eqn:Hconf.
  - pose proof (plaid_command_runs action options w _ Hconf Hctor) as Hruns.
    rewrite Hconf in Hruns. unfold cli_try_catch in Hruns.
    match type of Hruns with context [match ?body ?p with _ => _ end] =>
      destruct (body p) as [[[]|e|code] p'] eqn:Hbody end.
    + exists p'. by left.
    + destruct (catch_exits options e p') as (lines & Hcatch).
      cbv zeta in Hcatch. rewrite Hcatch in Hruns. eexists. right. by exists 1.
    + exists p'. right. by exists code.
  - eexists. right. exists 1.
    unfold plaid_command. unfold mbind at 1, Cli_bind at 1.
    rewrite (boot_store _ _ Hctor).
    lazy [mbind Cli_bind mret Cli_ret say run in_os console_error modify log
          process_exit negb heap defaultFileStore os disk clock ticks console].
    reflexivity.
Qed.

End PlaidCommandFacts.

(** ** The command and the next process *)

Section PlaidCommandDurable.
Context {host : Host} {laws : HostLaws host}.
Context (isPlaidConfigured : bool)
        (getPlaidClient : Result LinkMore.PlaidClient)
        (getAccounts : string -> Result (list Account))
        (stack : Error -> option string)
        (elsewhere : string -> nat -> PlaidOptions -> Cli unit).

#[local] Arguments saveItem : simpl never.
#[local] Arguments deleteItem : simpl never.
#[local] Arguments String.append : simpl never.

Local Abbreviation command :=
  (plaid_command isPlaidConfigured getPlaidClient getAccounts stack elsewhere).

(** A store of the default path that has just written its file is found
    again, entry by entry, by the constructor of a later process, whatever
    was printed in between. *)
Lemma call_then_restart w obj c w1 s w2 :
  can_write DEFAULT_STORE_PATH (disk w) = true ->
  constructor None w = (Ok obj, w) ->
  disk w1 = disk w ->
  call c {| this := obj; world := w1 |} = (Ok tt, s) ->
  disk w2 = disk (world s) ->
  exists obj',
    constructor None w2 = (Ok obj', w2)
    /\ forall id, Map_get id (items obj') = Map_get id (items (this s)).
Proof.
  intros Hcw Hctor Hdisk1 Hcall Hdisk2.
  destruct (constructor_in_sync None w obj w Hcw Hctor) as (_ & Hpath & Hsync).
  assert (in_sync {| this := obj; world := w1 |}) as Hsync1
    by (by apply (in_sync_same_disk {| this := obj; world := w |})).
  destruct (call_in_sync c _ Hsync1) as (s' & Hcall' & Hpath' & Hsync').
  rewrite Hcall' in Hcall. injection Hcall as <-.
  destruct Hsync' as (Hnd & _ & store' & Hctor' & Hperm).
  simpl in Hpath', Hpath. rewrite Hpath', Hpath in Hctor'.
  destruct (constructor_returns None w2) as (m & Hret & _).
  assert ((constructor (Some DEFAULT_STORE_PATH) (world s')).1
          = (constructor None (world s')).1) as Heq by done.
  rewrite Heq, <- (constructor_disk None w2 (world s') Hdisk2), Hret in Hctor'.
  simpl in Hctor'. injection Hctor' as <-.
  eexists. split; [exact Hret|]. intros id. symmetry.
  by apply Map_get_Permutation.
Qed.

(** X28. What [plaid link] stored is there for the next process: when the
    store file can be written and the provider answers every step, a
    process started on the system the command left constructs, from the
    file at the default path, a store that holds the linked record and,
    under every other id, what the file held before. *)
Theorem plaid_link_survives options w obj user sandbox exchange info accounts :
  can_write DEFAULT_STORE_PATH (disk w) = true ->
  isPlaidConfigured = true ->
  constructor None w = (Ok obj, w) ->
  opt_userId options = Some user ->
  user <> EmptyString ->
  LinkMore.createSandboxPublicToken getPlaidClient None None = Ok sandbox ->
  Link.exchangePublicToken (LinkMore.api <$> getPlaidClient) (LinkMore.publicToken sandbox)
  = Ok exchange ->
  LinkMore.getItem getPlaidClient (Link.exchanged_accessToken exchange) = Ok info ->
  getAccounts (Link.exchanged_accessToken exchange) = Ok accounts ->
  exists p' obj',
    command "link" options (boot w) = (Returned tt, p')
    /\ constructor None (os p') = (Ok obj', os p')
    /\ (exists item,
          Map_get (Link.exchanged_itemId exchange) (items obj') = Some item
          /\ accessToken item = Link.exchanged_accessToken exchange
          /\ userId item = user)
    /\ (forall id, id <> Link.exchanged_itemId exchange ->
          Map_get id (items obj') = Map_get id (items obj)).
Proof.
  intros Hcw Hconf Hctor Hopt Huser Hsandbox Hexchange Hinfo Haccounts.
  destruct (plaid_link_runs isPlaidConfigured getPlaidClient getAccounts stack elsewhere
              _ _ _ _ _ _ _ _ Hconf Hctor Hopt Huser
              Hsandbox Hexchange Hinfo Haccounts)
    as (w1 & w' & lines & Hdisk1 & _ & Hsave & _ & ->).
  match type of Hsave with saveItem ?r _ = _ => set (record := r) in * end.
  destruct (call_then_restart w obj (CallSaveItem record) w1 _
              (os (logged lines {| heap := []; defaultFileStore := None; os := w' |}))
              Hcw Hctor Hdisk1 Hsave eq_refl)
    as (obj' & Hctor' & Hsame).
  eexists _, obj'. split; [done|]. split; [exact Hctor'|]. split.
  - exists record. rewrite Hsame. simpl. by rewrite Map_get_set_eq.
  - intros id Hne. rewrite Hsame. simpl. by rewrite Map_get_set_ne.
Qed.

(** X29. What [plaid remove] removed stays removed: when the store file
    can be written and the provider accepts, a process started on the
    system the command left constructs a store without the item, and with
    every other item of the file. *)
Theorem plaid_remove_survives options w obj id item client response :
  can_write DEFAULT_STORE_PATH (disk w) = true ->
  isPlaidConfigured = true ->
  constructor None w = (Ok obj, w) ->
  opt_itemId options = Some id ->
  id <> EmptyString ->
  getItem id {| this := obj; world := w |} = (Ok (Some item), {| this := obj; world := w |}) ->
  getPlaidClient = Ok client ->
  Link.itemRemove (LinkMore.api client) (accessToken item) = Ok response ->
  exists p' obj',
    command "remove" options (boot w) = (Returned tt, p')
    /\ constructor None (os p') = (Ok obj', os p')
    /\ Map_get id (items obj') = None
    /\ (forall id', id' <> id -> Map_get id' (items obj') = Map_get id' (items obj)).
Proof.
  intros Hcw Hconf Hctor Hopt Hid Hitem Hclient Hremove.
  unfold getItem, gets in Hitem. injection Hitem as Hitem.
  destruct (plaid_remove_runs isPlaidConfigured getPlaidClient getAccounts stack elsewhere
              _ _ _ _ _ _ _ Hconf Hctor Hopt Hid Hitem
              Hclient Hremove)
    as (w' & Hdelete & ->).
  destruct (call_then_restart w obj (CallDeleteItem id)
              (log ("[INFO] Removing item: " +:+ id) w) _
              (os (logged ["[SUCCESS] Item removed"]
                     {| heap := []; defaultFileStore := None; os := w' |}))
              Hcw Hctor eq_refl Hdelete eq_refl)
    as (obj' & Hctor' & Hsame).
  eexists _, obj'. split; [done|]. split; [exact Hctor'|]. split.
  - rewrite Hsame. simpl. by rewrite Map_get_delete_eq.
  - intros id' Hne. rewrite Hsame. simpl. by rewrite Map_get_delete_ne.
Qed.

End PlaidCommandDurable.

(** * The properties beyond the contract, on the samples *)

Section MoreRuns.
Import Sample Scenario.

Lemma calls_ignore_the_disk_witness :
  let cs := [CallSaveItem item_7; CallUpdateSyncCursor "item-A" "c1"; CallDeleteItem "7"] in
  let s1 := store_of_A ticking in
  let s2 := store_of_A_readonly in
  this s1 = this s2
  /\ clock (world s1) = clock (world s2)
  /\ ticks (world s1) = ticks (world s2)
  /\ (calls cs s1).1 = Ok tt
  /\ (calls cs s2).1 = Ok tt
  /\ this (calls cs s1).2 = this (calls cs s2).2
  /\ forall id, (getItem id (calls cs s1).2).1 = (getItem id (calls cs s2).2).1.
Proof.
  intros cs s1 s2. split; [reflexivity|]. split; [reflexivity|]. split; [reflexivity|].
  exact (calls_ignore_the_disk cs s1 s2 eq_refl eq_refl eq_refl).
Defined.


Lemma getItem_after_restart_witness :
  let fp := Some store_file in
  let w0 := world_at ticking empty_disk in
  let store := {| items := []; filePath := store_file |} in
  let cs := [CallSaveItem item_A; CallDeleteItem "item-A"; CallSaveItem item_7] in
  let ran := calls cs {| this := store; world := w0 |} in
  HostLaws host
  /\ can_write store_file (disk w0) = true
  /\ constructor fp w0 = (Ok store, w0)
  /\ exists store',
       constructor fp (world ran.2) = (Ok store', world ran.2)
       /\ (getItem "7" {| this := store'; world := world ran.2 |}).1
          = (getItem "7" ran.2).1.
Proof.
  intros fp w0 store cs ran.
  split; [exact sample_host_laws|]. split; [reflexivity|]. split; [reflexivity|].
  apply (getItem_after_restart (laws := sample_host_laws) fp w0 store w0 cs ran.1).
  - reflexivity.
  - reflexivity.
  - apply surjective_pairing.
Defined.

Lemma deleteItem_takes_one_out_witness :
  let s := store_of_A ticking in
  NoDup (Map_keys (items (this s)))
  /\ getItem "item-A" s = (Ok (Some item_A), s)
  /\ exists s' before after,
       deleteItem "item-A" s = (Ok tt, s')
       /\ getAllItems s = (Ok (before ++ item_A :: after), s)
       /\ getAllItems s' = (Ok (before ++ after), s').
Proof.
  intros s.
  assert (NoDup (Map_keys (items (this s)))) as Hnd by apply NoDup_singleton.
  split; [exact Hnd|]. split; [reflexivity|].
  exact (deleteItem_takes_one_out s "item-A" item_A Hnd eq_refl).
Defined.

Lemma calls_leave_other_items_witness :
  let cs := [CallSaveItem item_7; CallUpdateStatus "7" "error"; CallDeleteItem "7"] in
  let s := store_of_A ticking in
  Forall (fun c => subject c <> "item-A") cs
  /\ (getItem "item-A" (calls cs s).2).1 = (getItem "item-A" s).1.
Proof.
  intros cs s.
  assert (Forall (fun c => subject c <> "item-A") cs) as Hothers
    by (repeat (constructor; [discriminate|]); constructor).
  split; [exact Hothers|].
  exact (calls_leave_other_items cs s "item-A" Hothers).
Defined.

Lemma updateItem_keeps_the_key_witness :
  let s := store_of_A ticking in
  getItem "item-A" s = (Ok (Some item_A), s)
  /\ p_itemId (renaming "item-B") = Some "item-B"
  /\ exists s' item',
       updateItem "item-A" (renaming "item-B") s = (Ok tt, s')
       /\ getItem "item-A" s' = (Ok (Some item'), s')
       /\ itemId item' = "item-B"
       /\ Map_keys (items (this s')) = Map_keys (items (this s))
       /\ ("item-B" <> "item-A" -> (getItem "item-B" s').1 = (getItem "item-B" s).1).
Proof.
  intros s. split; [reflexivity|]. split; [reflexivity|].
  exact (updateItem_keeps_the_key s "item-A" "item-B" (renaming "item-B") item_A
           eq_refl eq_refl).
Defined.

Lemma getFilePlaidItemStore_reuses_witness :
  let obj := {| items := [("item-A", item_A)]; filePath := store_file |} in
  defaultFileStore process_of_A = Some 0
  /\ heap process_of_A !! 0 = Some obj
  /\ getFilePlaidItemStore None process_of_A = (Ok 0, process_of_A)
  /\ getFilePlaidItemStore (Some store_file) process_of_A = (Ok 0, process_of_A).
Proof.
  intros obj. split; [reflexivity|]. split; [reflexivity|]. split.
  - exact (getFilePlaidItemStore_reuses None process_of_A 0 obj eq_refl eq_refl
             (or_introl eq_refl)).
  - exact (getFilePlaidItemStore_reuses (Some store_file) process_of_A 0 obj eq_refl
             eq_refl (or_intror eq_refl)).
Defined.

Lemma getFilePlaidItemStore_constructs_witness :
  let obj := {| items := [("item-A", item_A)]; filePath := store_file |} in
  let fp := Some "/elsewhere/items.json" in
  (defaultFileStore process_of_A = Some 0 /\ heap process_of_A !! 0 = Some obj
   /\ "/elsewhere/items.json" <> filePath obj)
  /\ exists obj',
       constructor fp (os process_of_A) = (Ok obj', os process_of_A)
       /\ filePath obj' = "/elsewhere/items.json"
       /\ getFilePlaidItemStore fp process_of_A
          = (Ok 1, {| heap := heap process_of_A ++ [obj']; defaultFileStore := Some 1;
                      os := os process_of_A |}).
Proof.
  intros obj fp.
  assert ("/elsewhere/items.json" <> filePath obj) as Hne by discriminate.
  split; [by split_and!|].
  apply (getFilePlaidItemStore_constructs fp process_of_A).
  right. exists 0, obj, "/elsewhere/items.json". by split_and!.
Defined.

Lemma default_store_is_shared_witness :
  (forall st, defaultFileStore process_of_A = Some st -> is_Some (heap process_of_A !! st))
  /\ getFilePlaidItemStore None process_of_A = (Ok 0, process_of_A)
  /\ exists p2,
       on 0 (saveItem item_7) process_of_A = (Ok tt, p2)
       /\ getFilePlaidItemStore None p2 = (Ok 0, p2)
       /\ on 0 (getItem "7") p2 = (Ok (Some item_7), p2).
Proof.
  assert (forall st, defaultFileStore process_of_A = Some st
                     -> is_Some (heap process_of_A !! st)) as Hwf
    by (intros st [= <-]; eexists; reflexivity).
  split; [exact Hwf|]. split; [reflexivity|].
  exact (default_store_is_shared None process_of_A 0 process_of_A item_7 Hwf eq_refl).
Defined.

Lemma createUpdateLinkToken_request_witness :
  Link.createUpdateLinkToken (Ok answering) (Ok config_with_webhook) "user-1"
    "access-sandbox-1"
  = (response ← Link.linkTokenCreate answering
       {| Link.user_client_user_id := "user-1";
          Link.client_name := "BOA Statement Parser";
          Link.request_products := [Link.Products_Transactions];
          Link.country_codes := [Link.CountryCode_Us];
          Link.request_language := "en";
          Link.webhook := Some "https://example.test/hook";
          Link.redirect_uri := None;
          Link.access_token := Some "access-sandbox-1" |};
     Ok {| Link.linkToken := Link.link_token (Link.data response);
           Link.expiration := Link.response_expiration (Link.data response);
           Link.requestId := Link.link_request_id (Link.data response) |}).
Proof.
  exact (createUpdateLinkToken_request (Ok answering) (Ok config_with_webhook)
           answering config_with_webhook "user-1" "access-sandbox-1" eq_refl eq_refl).
Defined.

Lemma plaid_command_not_configured_witness :
  let w := world_at ticking empty_disk in
  exists p',
    plaid_command false (Ok client) one_account no_stack nowhere "link"
      (for_user "user-1") (boot w)
    = (Exited 1, p')
    /\ heap p' = [default_store_empty]
    /\ disk (os p') = disk w.
Proof.
  intros w.
  destruct (plaid_command_not_configured false (Ok client) one_account no_stack nowhere
              "link" (for_user "user-1") w eq_refl)
    as (obj & p' & Hctor & Hrun & Hheap & Hdisk & _).
  exists p'. split; [exact Hrun|]. split; [|exact Hdisk].
  assert (constructor None w = (Ok default_store_empty, w)) as Hempty
    by (vm_compute; reflexivity).
  rewrite Hheap. congruence.
Defined.

Lemma plaid_command_unknown_action_witness :
  let w := world_at ticking empty_disk in
  let known := ["link"; "list"; "status"; "remove"; "test"; "sync"; "reconcile";
                "identity"; "auth"; "liabilities"; "holdings"] in
  ("relink" ∉ known)
  /\ exists p',
       plaid_command true (Ok client) one_account no_stack nowhere "relink"
         (for_user "user-1") (boot w)
       = (Exited 1, p')
       /\ disk (os p') = disk w
       /\ console (os p')
          = ["[ERROR] Unknown action: relink";
             "Valid actions: link, list, status, sync, remove, reconcile, identity, auth, liabilities, holdings, test"].
Proof.
  intros w known.
  assert ("relink" ∉ known) as Hunknown
    by (apply (proj1 (bool_decide_eq_false _)); vm_compute; reflexivity).
  split; [exact Hunknown|].
  destruct (plaid_command_unknown_action true (Ok client) one_account no_stack nowhere
              "relink" (for_user "user-1") w eq_refl Hunknown)
    as (obj & p' & _ & Hrun & _ & Hdisk & Hconsole).
  exists p'. split; [exact Hrun|]. split; [exact Hdisk|exact Hconsole].
Defined.

Lemma plaid_remove_removes_witness :
  let w := world_with_A in
  let options := for_item "item-A" in
  constructor None w = (Ok default_store_of_A, w)
  /\ getItem "item-A" {| this := default_store_of_A; world := w |}
     = (Ok (Some item_A), {| this := default_store_of_A; world := w |})
  /\ exists p',
       plaid_command true (Ok client) one_account no_stack nowhere "remove" options (boot w)
       = (Returned tt, p')
       /\ on 0 (getItem "item-A") p' = (Ok None, p')
       /\ last (console (os p')) = Some "[SUCCESS] Item removed".
Proof.
  intros w options.
  assert (constructor None w = (Ok default_store_of_A, w)) as Hctor
    by (vm_compute; reflexivity).
  split; [exact Hctor|]. split; [reflexivity|].
  destruct (plaid_remove_removes true (Ok client) one_account no_stack nowhere
              options w default_store_of_A "item-A" item_A client
              {| Link.data := {| Link.remove_request_id := "req-3" |};
                 Link.http_status := 200; Link.http_statusText := "OK" |}
              eq_refl Hctor eq_refl ltac:(discriminate) eq_refl eq_refl eq_refl)
    as (p' & Hrun & Hgone & _ & Hlast).
  exists p'. by split_and!.
Defined.

Lemma plaid_remove_refused_witness :
  let w := world_with_A in
  let options := for_item "item-A" in
  let e := SystemError "ERR_BAD_REQUEST" "Request failed with status code 400" in
  constructor None w = (Ok default_store_of_A, w)
  /\ Link.removeItem (LinkMore.api <$> Ok client_refusing_remove) (accessToken item_A) = Err e
  /\ exists lines,
       plaid_command true (Ok client_refusing_remove) one_account no_stack nowhere
         "remove" options (boot w)
       = (Exited 1, logged lines {| heap := [default_store_of_A];
                                    defaultFileStore := Some 0; os := w |})
       /\ "[ERROR] Request failed with status code 400" ∈ lines.
Proof.
  intros w options e.
  assert (constructor None w = (Ok default_store_of_A, w)) as Hctor
    by (vm_compute; reflexivity).
  split; [exact Hctor|]. split; [reflexivity|].
  exact (plaid_remove_refused true (Ok client_refusing_remove) one_account no_stack nowhere
           options w default_store_of_A "item-A" item_A e
           eq_refl Hctor eq_refl ltac:(discriminate) eq_refl eq_refl).
Defined.

Lemma plaid_remove_nothing_witness :
  let w := world_with_A in
  let options := for_item "item-B" in
  constructor None w = (Ok default_store_of_A, w)
  /\ (forall id, opt_itemId options = Some id -> Map_get id (items default_store_of_A) = None)
  /\ exists lines,
       plaid_command true (Ok client) one_account no_stack nowhere "remove" options (boot w)
       = (Exited 1, logged lines {| heap := [default_store_of_A];
                                    defaultFileStore := Some 0; os := w |}).
Proof.
  intros w options.
  assert (constructor None w = (Ok default_store_of_A, w)) as Hctor
    by (vm_compute; reflexivity).
  assert (forall id, opt_itemId options = Some id
                     -> Map_get id (items default_store_of_A) = None) as Hnone
    by (intros id [= <-]; reflexivity).
  split; [exact Hctor|]. split; [exact Hnone|].
  exact (plaid_remove_nothing true (Ok client) one_account no_stack nowhere
           options w default_store_of_A eq_refl Hctor Hnone).
Defined.

Lemma plaid_link_links_witness :
  let w := world_at ticking empty_disk in
  let options := for_user "user-1" in
  constructor None w = (Ok default_store_empty, w)
  /\ LinkMore.createSandboxPublicToken (Ok client) None None = Ok sandbox_token
  /\ Link.exchangePublicToken (LinkMore.api <$> Ok client) (LinkMore.publicToken sandbox_token)
     = Ok exchanged
  /\ LinkMore.getItem (Ok client) (Link.exchanged_accessToken exchanged) = Ok item_info
  /\ exists p' item,
       plaid_command true (Ok client) one_account no_stack nowhere "link" options (boot w)
       = (Returned tt, p')
       /\ on 0 (getItem "item-A") p' = (Ok (Some item), p')
       /\ accessToken item = "access-sandbox-1"
       /\ createdAt item = "2026-01-01T00:00:00.000Z"
       /\ updatedAt item = "2026-01-01T00:00:00.001Z"
       /\ ticks (os p') = 2.
Proof.
  intros w options.
  assert (constructor None w = (Ok default_store_empty, w)) as Hctor
    by (vm_compute; reflexivity).
  split; [exact Hctor|]. split; [reflexivity|]. split; [reflexivity|].
  split; [reflexivity|].
  destruct (plaid_link_links true (Ok client) one_account no_stack nowhere
              options w default_store_empty "user-1" sandbox_token exchanged item_info
              [checking]
              eq_refl Hctor eq_refl ltac:(discriminate) eq_refl eq_refl eq_refl eq_refl)
    as (p' & Hrun & Hget & _ & Hticks).
  eexists p', _. split; [exact Hrun|]. split; [exact Hget|]. by split_and!.
Defined.

Lemma plaid_link_failed_witness :
  let w := world_at ticking empty_disk in
  let options := for_user "user-1" in
  let e := SystemError "ERR_BAD_REQUEST" "Request failed with status code 429" in
  constructor None w = (Ok default_store_empty, w)
  /\ Link.exchangePublicToken (LinkMore.api <$> Ok client) (LinkMore.publicToken sandbox_token)
     = Ok exchanged
  /\ rate_limited (Link.exchanged_accessToken exchanged) = Err e
  /\ exists lines,
       plaid_command true (Ok client) rate_limited no_stack nowhere "link" options (boot w)
       = (Exited 1, logged lines {| heap := [default_store_empty];
                                    defaultFileStore := Some 0; os := w |})
       /\ "[ERROR] Request failed with status code 429" ∈ lines.
Proof.
  intros w options e.
  assert (constructor None w = (Ok default_store_empty, w)) as Hctor
    by (vm_compute; reflexivity).
  split; [exact Hctor|]. split; [reflexivity|]. split; [reflexivity|].
  exact (plaid_link_failed true (Ok client) rate_limited no_stack nowhere
           options w default_store_empty "user-1" e
           eq_refl Hctor eq_refl ltac:(discriminate) eq_refl).
Defined.


Lemma plaid_status_only_prints_witness :
  let w := world_with_A in
  constructor None w = (Ok default_store_of_A, w)
  /\ exists outcome lines,
       plaid_command true (Ok client) one_account no_stack nowhere "status"
         (for_item "item-A") (boot w)
       = (outcome, logged lines {| heap := [default_store_of_A];
                                   defaultFileStore := Some 0; os := w |}).
Proof.
  intros w.
  assert (constructor None w = (Ok default_store_of_A, w)) as Hctor
    by (vm_compute; reflexivity).
  split; [exact Hctor|].
  exact (plaid_status_only_prints true (Ok client) one_account no_stack nowhere
           (for_item "item-A") w default_store_of_A eq_refl Hctor).
Defined.

Lemma plaid_link_needs_a_user_witness :
  let w := world_with_A in
  let options := for_item "item-A" in
  constructor None w = (Ok default_store_of_A, w)
  /\ missing (opt_userId options) = true
  /\ plaid_command true (Ok client) one_account no_stack nowhere "link" options (boot w)
     = (Exited 1, logged ["[ERROR] --user-id is required for link"]
                    {| heap := [default_store_of_A]; defaultFileStore := Some 0;
                       os := w |}).
Proof.
  intros w options.
  assert (constructor None w = (Ok default_store_of_A, w)) as Hctor
    by (vm_compute; reflexivity).
  split; [exact Hctor|]. split; [reflexivity|].
  exact (plaid_link_needs_a_user true (Ok client) one_account no_stack nowhere
           options w default_store_of_A eq_refl Hctor eq_refl).
Defined.

Lemma plaid_link_survives_witness :
  let w := world_at ticking empty_disk in
  let options := for_user "user-1" in
  HostLaws host
  /\ can_write DEFAULT_STORE_PATH (disk w) = true
  /\ constructor None w = (Ok default_store_empty, w)
  /\ exists p' obj',
       plaid_command true (Ok client) one_account no_stack nowhere "link" options (boot w)
       = (Returned tt, p')
       /\ constructor None (os p') = (Ok obj', os p')
       /\ exists item,
            Map_get "item-A" (items obj') = Some item
            /\ accessToken item = "access-sandbox-1"
            /\ userId item = "user-1".
Proof.
  intros w options.
  assert (constructor None w = (Ok default_store_empty, w)) as Hctor
    by (vm_compute; reflexivity).
  split; [exact sample_host_laws|]. split; [reflexivity|]. split; [exact Hctor|].
  destruct (plaid_link_survives (laws := sample_host_laws)
              true (Ok client) one_account no_stack nowhere
              options w default_store_empty "user-1" sandbox_token exchanged item_info
              [checking]
              eq_refl eq_refl Hctor eq_refl ltac:(discriminate) eq_refl eq_refl eq_refl
              eq_refl)
    as (p' & obj' & Hrun & Hctor' & Hitem & _).
  exists p', obj'. by split_and!.
Defined.

Lemma plaid_remove_survives_witness :
  let w := world_with_A in
  let options := for_item "item-A" in
  HostLaws host
  /\ can_write DEFAULT_STORE_PATH (disk w) = true
  /\ constructor None w = (Ok default_store_of_A, w)
  /\ exists p' obj',
       plaid_command true (Ok client) one_account no_stack nowhere "remove" options (boot w)
       = (Returned tt, p')
       /\ constructor None (os p') = (Ok obj', os p')
       /\ Map_get "item-A" (items obj') = None.
Proof.
  intros w options.
  assert (constructor None w = (Ok default_store_of_A, w)) as Hctor
    by (vm_compute; reflexivity).
  split; [exact sample_host_laws|]. split; [vm_compute; reflexivity|].
  split; [exact Hctor|].
  destruct (plaid_remove_survives (laws := sample_host_laws)
              true (Ok client) one_account no_stack nowhere
              options w default_store_of_A "item-A" item_A client
              {| Link.data := {| Link.remove_request_id := "req-3" |};
                 Link.http_status := 200; Link.http_statusText := "OK" |}
              ltac:(vm_compute; reflexivity) eq_refl Hctor eq_refl ltac:(discriminate)
              eq_refl eq_refl eq_refl)
    as (p' & obj' & Hrun & Hctor' & Hgone & _).
  exists p', obj'. by split_and!.
Defined.

End MoreRuns.

